(** * Translation merge scripts of paperless-scanner

    A shallow embedding of the three resource-merge scripts

    - [add_2fa_translations.py]        (structured tree, xml.etree.ElementTree)
    - [add_security_translations.py]   (text, regular expression + str.replace)
    - [scripts/add_wifi_translations.py] (text, marker + slicing)

    Python [str] values are modelled by their UTF-8 bytes ([list ascii]).
    Every literal the scripts search for is ASCII, and UTF-8 is
    self-synchronising, so substring search, replacement and the negated
    character class of the regular expression select the same text on bytes
    as on code points. *)

From Stdlib Require Import Ascii String List ZArith Lia Bool Arith FinFun.
Import ListNotations.
Local Open Scope list_scope.

Set Warnings "-register-all".

(* ================================================================== *)
(** * Python strings *)
(* ================================================================== *)

Definition str := list ascii.

Definition lit (s : string) : str := list_ascii_of_string s.
Arguments lit s%_string.

(** The double quote and the line feed, which a literal cannot hold. *)
Definition dq : ascii := "034"%char.
Definition nl : ascii := "010"%char.

Fixpoint str_eqb (a b : str) : bool :=
  match a, b with
  | [], [] => true
  | x :: a', y :: b' => Ascii.eqb x y && str_eqb a' b'
  | _, _ => false
  end.

(** [s.startswith(p)] *)
Fixpoint starts_with (p s : str) : bool :=
  match p, s with
  | [], _ => true
  | _ :: _, [] => false
  | x :: p', y :: s' => Ascii.eqb x y && starts_with p' s'
  end.

(** [sub in s] *)
Fixpoint contains (sub s : str) : bool :=
  match s with
  | [] => starts_with sub []
  | _ :: s' => starts_with sub s || contains sub s'
  end.

(** Offset of the first occurrence of [sub] in [s]. *)
Fixpoint find_first (sub s : str) : option nat :=
  match s with
  | [] => if starts_with sub [] then Some 0 else None
  | _ :: s' =>
      if starts_with sub s then Some 0
      else option_map S (find_first sub s')
  end.

(** Python's normalisation of a slice bound against a length. *)
Definition clamp_index (n : Z) (len : nat) : nat :=
  if (n <? 0)%Z then Z.to_nat (Z.max 0 (n + Z.of_nat len))
  else Nat.min (Z.to_nat n) len.

(** [s[:n]] and [s[n:]] *)
Definition slice_to (s : str) (n : Z) : str := firstn (clamp_index n (length s)) s.
Definition slice_from (s : str) (n : Z) : str := skipn (clamp_index n (length s)) s.

(** [s.find(sub)] and [s.find(sub, start)]: the index, or [-1]. *)
Definition py_find_from (sub s : str) (start : Z) : Z :=
  let i := clamp_index start (length s) in
  if (Z.of_nat (length s) <? start)%Z then (-1)%Z
  else match find_first sub (skipn i s) with
       | Some k => Z.of_nat (i + k)
       | None => (-1)%Z
       end.

Definition py_find (sub s : str) : Z := py_find_from sub s 0.

(** [s.replace(old, new)] for a non-empty [old]: occurrences are replaced
    from left to right and do not overlap. [skip] counts the characters of
    the current occurrence still to be dropped. *)
Fixpoint replace_go (old new : str) (skip : nat) (s : str) : str :=
  match s with
  | [] => []
  | c :: s' =>
      match skip with
      | S k => replace_go old new k s'
      | O =>
          if starts_with old s
          then new ++ replace_go old new (length old - 1) s'
          else c :: replace_go old new 0 s'
      end
  end.

Definition py_replace (old new s : str) : str := replace_go old new 0 s.

(** [sep.join(parts)] *)
Fixpoint py_join (sep : str) (parts : list str) : str :=
  match parts with
  | [] => []
  | [p] => p
  | p :: rest => p ++ sep ++ py_join sep rest
  end.

(** Keys of a dict in iteration order, and [d.get(k)]. *)
Definition dict (V : Type) := list (str * V).

Definition keys {V} (d : dict V) : list str := map fst d.

Fixpoint dict_get {V} (d : dict V) (k : str) : option V :=
  match d with
  | [] => None
  | (k', v) :: d' => if str_eqb k' k then Some v else dict_get d' k
  end.

(** [k in s] for a set of strings. *)
Definition mem (k : str) (s : list str) : bool := existsb (str_eqb k) s.

(* ================================================================== *)
(** * The file system *)
(* ================================================================== *)

(** A file has its bytes; [readable] says that opening it for reading and
    decoding it as UTF-8 succeed, [writable] that opening it for writing
    succeeds. A file is named by its path string: two strings name two
    files. *)
Record file := mkFile { content : str; readable : bool; writable : bool }.

Definition path := str.
Definition fs := path -> option file.

Definition exists_file (d : fs) (p : path) : bool :=
  match d p with Some _ => true | None => false end.

Definition fs_write (d : fs) (p : path) (c : str) : fs :=
  fun q => if str_eqb q p
           then match d p with
                | Some f => Some (mkFile c (readable f) (writable f))
                | None => Some (mkFile c true true)
                end
           else d q.

Definition ends_with_char (c : ascii) (s : str) : bool :=
  match rev s with
  | x :: _ => Ascii.eqb x c
  | [] => false
  end.

(** One step of [os.path.join] in its POSIX form: a component that starts
    with the separator restarts the path; a separator is put before the
    component unless the path so far is empty or already ends with one. *)
Definition join_one (sep : ascii) (p b : str) : str :=
  match b with
  | x :: _ =>
      if Ascii.eqb x sep then b
      else match p with
           | [] => b
           | _ => if ends_with_char sep p then p ++ b else p ++ sep :: b
           end
  | [] =>
      match p with
      | [] => []
      | _ => if ends_with_char sep p then p else p ++ [sep]
      end
  end.

Definition path_join (sep : ascii) (base : str) (parts : list str) : str :=
  fold_left (join_one sep) parts base.

(** What one locale's processing reports. *)
Inductive outcome : Type :=
| Added (n : nat)
| NoOp
| NotFound
| UnknownLocale
| AnchorNotFound
| Error.

(** A call either returns or lets a Python exception escape. *)
Inductive result (A : Type) : Type :=
| Ret (a : A)
| Raise.
Arguments Ret {A} a.
Arguments Raise {A}.

(* ================================================================== *)
(** * add_security_translations.py *)
(* ================================================================== *)

Module Security.

(** The text of the pattern before the group: [<string name=] and a
    double quote. *)
Definition open_lit : str := lit "<string name=" ++ [dq].

(** The longest prefix without a double quote, and what follows it. *)
Fixpoint span_key (s : str) : str * str :=
  match s with
  | [] => ([], [])
  | c :: s' =>
      if Ascii.eqb c dq then ([], s)
      else let (k, r) := span_key s' in (c :: k, r)
  end.

Fixpoint strip_prefix (p s : str) : option str :=
  match p, s with
  | [], _ => Some s
  | _ :: _, [] => None
  | x :: p', y :: s' => if Ascii.eqb x y then strip_prefix p' s' else None
  end.

(** A match of the pattern that starts at the head of [s]: the opening
    text, a group of one or more characters other than the double quote,
    then a double quote and [>]. The result is the group and the length
    of the match. The negated class takes every character but the quote
    (line breaks too), and the quote that must follow the group cannot be
    given back by the group, so the greedy match is the only one. *)
Definition match_here (s : str) : option (str * nat) :=
  match strip_prefix open_lit s with
  | None => None
  | Some r =>
      match span_key r with
      | (c :: k, q :: g :: _) =>
          if Ascii.eqb q dq && Ascii.eqb g ">"%char
          then Some (c :: k, length open_lit + length (c :: k) + 2)
          else None
      | _ => None
      end
  end.

(** [re.findall(pattern, content)]: the groups of the matches, scanning
    from left to right, matches not overlapping. *)
Fixpoint findall_go (skip : nat) (s : str) : list str :=
  match s with
  | [] => []
  | _ :: s' =>
      match skip with
      | S n => findall_go n s'
      | O =>
          match match_here s with
          | Some (k, len) => k :: findall_go (len - 1) s'
          | None => findall_go 0 s'
          end
      end
  end.

Definition findall (s : str) : list str := findall_go 0 s.

Definition existing_keys (content : str) : list str := findall content.

(** The f-string of a new line: four spaces, the opening text, the key,
    a double quote and [>], the value, [</string>]. *)
Definition string_line (key value : str) : str :=
  lit "    " ++ open_lit ++ key ++ [dq] ++ lit ">" ++ value ++ lit "</string>".

(** The loop that builds [new_strings]. *)
Definition new_strings (content : str) (translations : dict str) : list str :=
  map (fun kv => string_line (fst kv) (snd kv))
      (filter (fun kv => negb (mem (fst kv) (existing_keys content))) translations).

Definition closing : str := lit "</resources>".

Definition translation_block (lines : list str) : str :=
  py_join [nl] lines ++ [nl].

Definition RES_DIR : str := lit "app/src/main/res".

Definition strings_file (folder : str) : path :=
  path_join "/"%char RES_DIR [folder; lit "strings.xml"].

Section Run.
Variable LANG_FOLDERS : dict str.

(** [add_translations_to_file(lang_code, translations)]: the outcome
    printed and the file system left behind, or an escaping exception
    (the function has no handler). *)
Definition add_translations_to_file (lang_code : str) (translations : dict str)
           (d : fs) : result (outcome * fs) :=
  match dict_get LANG_FOLDERS lang_code with
  | None | Some [] => Ret (UnknownLocale, d)
  | Some folder =>
      let p := strings_file folder in
      match d p with
      | None => Ret (NotFound, d)
      | Some f =>
          if negb (readable f) then Raise
          else
            let c := content f in
            let lines := new_strings c translations in
            match lines with
            | [] => Ret (NoOp, d)
            | _ =>
                if contains closing c then
                  let c' := py_replace closing (translation_block lines ++ closing) c in
                  if writable f then Ret (Added (length lines), fs_write d p c')
                  else Raise
                else Ret (AnchorNotFound, d)
            end
      end
  end.

(** [main()]: the outcomes of the locales processed, the final file
    system, and whether the loop ran to its end. *)
Fixpoint main_loop (table : dict (dict str)) (d : fs)
  : list (str * outcome) * fs * bool :=
  match table with
  | [] => ([], d, true)
  | (lang_code, translations) :: rest =>
      if str_eqb lang_code (lit "de") then main_loop rest d
      else
        match add_translations_to_file lang_code translations d with
        | Raise => ([], d, false)
        | Ret (o, d') =>
            let '(os, d'', fin) := main_loop rest d' in
            ((lang_code, o) :: os, d'', fin)
        end
  end.
End Run.

(** The folder map of the script. *)
Definition LANG_FOLDERS : dict str :=
  [ (lit "en", lit "values-en"); (lit "fr", lit "values-fr");
    (lit "es", lit "values-es"); (lit "it", lit "values-it");
    (lit "pt", lit "values-pt"); (lit "nl", lit "values-nl");
    (lit "pl", lit "values-pl"); (lit "sv", lit "values-sv");
    (lit "da", lit "values-da"); (lit "no", lit "values-no");
    (lit "fi", lit "values-fi"); (lit "cs", lit "values-cs");
    (lit "hu", lit "values-hu"); (lit "el", lit "values-el");
    (lit "ro", lit "values-ro"); (lit "tr", lit "values-tr") ].

End Security.

(* ================================================================== *)
(** * scripts/add_wifi_translations.py *)
(* ================================================================== *)

(** The opening tag of an entry in the literal form the text scripts write
    and look for. *)
Definition open_tag (key : str) : str :=
  lit "<string name=" ++ dq :: key ++ dq :: lit ">".

Definition close_string : str := lit "</string>".

Module Wifi.

Definition banner_key : str := lit "ai_wifi_only_banner".
Definition button_key : str := lit "ai_wifi_only_override_button".
Definition hint_key : str := lit "ai_wifi_required_hint".

Definition marker : str := open_tag (lit "premium_settings_new_tags_desc").

Definition base_path : str := lit "E:/Dropbox/GIT/paperless client/app/src/main/res".

Definition strings_file (folder_name : str) : path :=
  path_join "/"%char base_path [folder_name; lit "strings.xml"].

(** The f-string [new_strings]: a line break, an empty line, then the
    three entries, each indented by four spaces and ended by a line
    break. *)
Definition new_strings (banner button hint : str) : str :=
  [nl; nl]
    ++ lit "    " ++ open_tag banner_key ++ banner ++ close_string ++ [nl]
    ++ lit "    " ++ open_tag button_key ++ button ++ close_string ++ [nl]
    ++ lit "    " ++ open_tag hint_key ++ hint ++ close_string ++ [nl].

Section Run.
Variable translations : dict (dict str).

(** [translations.get(lang_code, translations[en])]: the default is
    evaluated first, and raises [KeyError] when the table has no
    English row. *)
Definition select_trans (lang_code : str) : result (dict str) :=
  match dict_get translations (lit "en") with
  | None => Raise
  | Some en =>
      match dict_get translations lang_code with
      | Some t => Ret t
      | None => Ret en
      end
  end.

(** The position at which the new text is spliced in. *)
Definition newline_pos (c : str) : Z :=
  let marker_pos := py_find marker c in
  let line_end := (py_find_from close_string c marker_pos
                   + Z.of_nat (length close_string))%Z in
  py_find_from [nl] c line_end.

(** The body of the loop of [add_translations] for one entry of
    [lang_folders]. The function has no exception handler. *)
Definition process (lang_code folder_name : str) (d : fs)
  : result (outcome * fs) :=
  let p := strings_file folder_name in
  match d p with
  | None => Ret (NotFound, d)
  | Some f =>
      if negb (readable f) then Raise
      else
        let c := content f in
        if contains banner_key c then Ret (NoOp, d)
        else if negb (contains marker c) then Ret (AnchorNotFound, d)
        else
          let n := newline_pos c in
          match select_trans lang_code with
          | Raise => Raise
          | Ret trans =>
              match dict_get trans (lit "banner"),
                    dict_get trans (lit "button"),
                    dict_get trans (lit "hint") with
              | Some b, Some u, Some h =>
                  let new_content :=
                    slice_to c n ++ new_strings b u h ++ slice_from c n in
                  if writable f then Ret (Added 3, fs_write d p new_content)
                  else Raise
              | _, _, _ => Raise
              end
          end
  end.

(** [add_translations()]: the loop over [lang_folders]. *)
Fixpoint add_translations (lang_folders : dict str) (d : fs)
  : list (str * outcome) * fs * bool :=
  match lang_folders with
  | [] => ([], d, true)
  | (lang_code, folder_name) :: rest =>
      match process lang_code folder_name d with
      | Raise => ([], d, false)
      | Ret (o, d') =>
          let '(os, d'', fin) := add_translations rest d' in
          ((lang_code, o) :: os, d'', fin)
      end
  end.
End Run.

(** The folder map of the script. *)
Definition lang_folders : dict str :=
  [ (lit "de", lit "values");    (lit "en", lit "values-en");
    (lit "fr", lit "values-fr"); (lit "es", lit "values-es");
    (lit "it", lit "values-it"); (lit "pt", lit "values-pt");
    (lit "nl", lit "values-nl"); (lit "pl", lit "values-pl");
    (lit "sv", lit "values-sv"); (lit "da", lit "values-da");
    (lit "no", lit "values-no"); (lit "fi", lit "values-fi");
    (lit "cs", lit "values-cs"); (lit "hu", lit "values-hu");
    (lit "el", lit "values-el"); (lit "ro", lit "values-ro");
    (lit "tr", lit "values-tr") ].

End Wifi.

(* ================================================================== *)
(** * add_2fa_translations.py *)
(* ================================================================== *)

Module TwoFA.

(** An [xml.etree.ElementTree.Element]. *)
Inductive Element : Type :=
| Elem (tag : str) (attrib : dict str) (text tail : option str)
       (children : list Element).

Definition tag (e : Element) : str := let 'Elem t _ _ _ _ := e in t.
Definition attrib (e : Element) : dict str := let 'Elem _ a _ _ _ := e in a.
Definition text (e : Element) : option str := let 'Elem _ _ x _ _ := e in x.
Definition tail (e : Element) : option str := let 'Elem _ _ _ x _ := e in x.
Definition children (e : Element) : list Element := let 'Elem _ _ _ _ c := e in c.

(** [e.iter()] without [e] itself: the descendants in document order. *)
Fixpoint descendants (e : Element) : list Element :=
  match e with
  | Elem _ _ _ _ cs => flat_map (fun c => c :: descendants c) cs
  end.

(** [root.findall('.//string')] *)
Definition findall_string (root : Element) : list Element :=
  filter (fun e => str_eqb (tag e) (lit "string")) (descendants root).

(** [elem.get('name')] *)
Definition get_name (e : Element) : option str := dict_get (attrib e) (lit "name").

Definition existing_keys (root : Element) : list (option str) :=
  map get_name (findall_string root).

Definition opt_eqb (a b : option str) : bool :=
  match a, b with
  | Some x, Some y => str_eqb x y
  | None, None => true
  | _, _ => false
  end.

(** [key in existing_keys] *)
Definition has_key (key : str) (existing : list (option str)) : bool :=
  existsb (opt_eqb (Some key)) existing.

(** [new_keys.issubset(existing_keys)] *)
Definition issubset (new_keys : list str) (existing : list (option str)) : bool :=
  forallb (fun k => has_key k existing) new_keys.

(** [ET.Element('string', name=key)] with its text set to [value]. *)
Definition string_elem (key value : str) : Element :=
  Elem (lit "string") [(lit "name", key)] (Some value) None [].

(** The elements the loop appends, in the order it appends them. *)
Definition new_elements (existing : list (option str)) (translations : dict str)
  : list Element :=
  map (fun kv => string_elem (fst kv) (snd kv))
      (filter (fun kv => negb (has_key (fst kv) existing)) translations).

(** [root.append(e)] for each [e] of [es]. *)
Definition append_all (root : Element) (es : list Element) : Element :=
  let 'Elem t a x y cs := root in Elem t a x y (cs ++ es).

(** ** ET.indent *)

Definition ascii_space (c : ascii) : bool :=
  let n := nat_of_ascii c in
  ((9 <=? n) && (n <=? 13)) || ((28 <=? n) && (n <=? 32)).

(** [not s.strip()]: [s] holds white space only. The characters
    [str.strip] removes are U+0009..000D, U+001C..0020, U+0085, U+00A0,
    U+1680, U+2000..200A, U+2028, U+2029, U+202F, U+205F and U+3000, here
    in their UTF-8 encoding. *)
Fixpoint is_blank (s : str) : bool :=
  match s with
  | [] => true
  | c :: s1 =>
      if ascii_space c then is_blank s1
      else
        match nat_of_ascii c, s1 with
        | 194, x :: r =>
            ((nat_of_ascii x =? 133) || (nat_of_ascii x =? 160)) && is_blank r
        | 225, x :: y :: r =>
            (nat_of_ascii x =? 154) && (nat_of_ascii y =? 128) && is_blank r
        | 226, x :: y :: r =>
            (((nat_of_ascii x =? 128)
              && (((128 <=? nat_of_ascii y) && (nat_of_ascii y <=? 138))
                  || (nat_of_ascii y =? 168) || (nat_of_ascii y =? 169)
                  || (nat_of_ascii y =? 175)))
             || ((nat_of_ascii x =? 129) && (nat_of_ascii y =? 159)))
            && is_blank r
        | 227, x :: y :: r =>
            (nat_of_ascii x =? 128) && (nat_of_ascii y =? 128) && is_blank r
        | _, _ => false
        end
  end.

(** [not t or not t.strip()] *)
Definition blank (t : option str) : bool :=
  match t with
  | None => true
  | Some s => is_blank s
  end.

Definition space : str := lit "    ".

(** [indentations[level]]: a line break and [level] times [space]. *)
Definition indentation (level : nat) : str := nl :: concat (repeat space level).

Definition set_tail (e : Element) (t : option str) : Element :=
  let 'Elem g a x _ cs := e in Elem g a x t cs.

(** The statement after the loop of [_indent_children]: the tail of the
    last child, when blank, becomes the parent's indentation. *)
Fixpoint dedent_last (ind : str) (cs : list Element) : list Element :=
  match cs with
  | [] => []
  | [c] => [if blank (tail c) then set_tail c (Some ind) else c]
  | c :: rest => c :: dedent_last ind rest
  end.

Fixpoint indent_children (level : nat) (e : Element) : Element :=
  match e with
  | Elem g a x y cs =>
      let child_indentation := indentation (S level) in
      let x' := if blank x then Some child_indentation else x in
      let step := fun c =>
        let c1 := match children c with
                  | [] => c
                  | _ :: _ => indent_children (S level) c
                  end in
        if blank (tail c1) then set_tail c1 (Some child_indentation) else c1 in
      Elem g a x' y (dedent_last (indentation level) (map step cs))
  end.

(** [ET.indent(tree, space='    ', level=0)] *)
Definition indent (root : Element) : Element :=
  match children root with
  | [] => root
  | _ :: _ => indent_children 0 root
  end.

(** ** Notions used by the statements *)

(** [e.iter()]: the element and its descendants. *)
Definition own (e : Element) : list Element := e :: descendants e.

Definition is_string (e : Element) : bool := str_eqb (tag e) (lit "string").

(** The names that are strings, out of a set that may hold [None]. *)
Definition names_of (existing : list (option str)) : list str :=
  flat_map (fun o => match o with Some k => [k] | None => [] end) existing.

(** [e'] is [e] up to its tail and up to the text of an element that has
    children and only white space before the first of them. *)
Definition ws_variant (e e' : Element) : Prop :=
  tag e' = tag e /\ attrib e' = attrib e
  /\ (text e' = text e \/ (blank (text e) = true /\ children e <> [])).


Definition strip_tail (e : Element) : Element := set_tail e None.

(** The elements under [c] and under [c'] correspond one to one. *)
Definition near (c c' : Element) : Prop := Forall2 ws_variant (own c) (own c').


Definition BASE_DIR : str := lit "E:\Dropbox\GIT\paperless client\app\src\main\res".

(** The folder of a language: [values] for English, [values-] and the
    code otherwise. *)
Definition folder_name (lang_code : str) : str :=
  if str_eqb lang_code (lit "en") then lit "values"
  else lit "values-" ++ lang_code.

(** [os.path.join] of the Windows path module for a component that has no
    drive and does not start with a separator, as the folder names (they
    start with [values]) and [strings.xml]: a backslash is put before the
    component unless the path ends with a backslash or a slash. *)
Definition nt_append (p b : str) : str :=
  if ends_with_char "\"%char p || ends_with_char "/"%char p then p ++ b
  else p ++ "\"%char :: b.

Definition file_path (lang_code : str) : path :=
  nt_append (nt_append BASE_DIR (folder_name lang_code)) (lit "strings.xml").

Section Run.
(** The library's parser and serialiser: [ET.parse] on the bytes of a
    file ([None] when it raises) and what [tree.write] with
    [encoding='utf-8'] and [xml_declaration=True] puts in the file. *)
Variable ET_parse : str -> option Element.
Variable ET_write : Element -> str.

(** The tree the function writes, when it writes one. *)
Definition merged (translations : dict str) (root : Element) : option Element :=
  let existing := existing_keys root in
  if issubset (keys translations) existing then None
  else Some (indent (append_all root (new_elements existing translations))).

(** [add_translations_to_file(file_path, translations)]. Every
    exception is caught by the handler of the function and reported as
    [Error]. The function returns [True] exactly on [Added]. *)
Definition add_translations_to_file (p : path) (translations : dict str) (d : fs)
  : outcome * fs :=
  match d p with
  | None => (Error, d)
  | Some f =>
      if negb (readable f) then (Error, d)
      else
        match ET_parse (content f) with
        | None => (Error, d)
        | Some root =>
            match merged translations root with
            | None => (NoOp, d)
            | Some root' =>
                if writable f
                then (Added (length (new_elements (existing_keys root) translations)),
                      fs_write d p (ET_write root'))
                else (Error, d)
            end
        end
  end.

Definition returns_true (o : outcome) : bool :=
  match o with Added _ => true | _ => false end.

(** [main()] *)
Fixpoint main_loop (table : dict (dict str)) (d : fs)
  : list (str * outcome) * fs :=
  match table with
  | [] => ([], d)
  | (lang_code, translations) :: rest =>
      let p := file_path lang_code in
      if exists_file d p then
        let (o, d') := add_translations_to_file p translations d in
        let (os, d'') := main_loop rest d' in
        ((lang_code, o) :: os, d'')
      else
        let (os, d'') := main_loop rest d in
        ((lang_code, NotFound) :: os, d'')
  end.

Definition total_updated (os : list (str * outcome)) : nat :=
  length (filter (fun lo => returns_true (snd lo)) os).
End Run.

End TwoFA.

(* ================================================================== *)
(** * A reference model of the library calls of the 2FA script *)
(* ================================================================== *)

(** The theorems on the 2FA script hold for every parser and serialiser.
    To run the script on concrete files, this module gives the behaviour of
    [ET.parse] and [tree.write] on the plain fragment of XML: an optional
    declaration, elements without namespace prefixes, attributes in single
    or double quotes, character data with the five predefined entities.
    Outside the fragment (comments, CDATA sections, processing
    instructions, doctype) [parse] answers [None]; the examples stay
    inside it. *)
Module Plain.
Import TwoFA.

(** [_escape_cdata] and [_escape_attrib] *)
Definition escape_cdata (s : str) : str :=
  py_replace (lit ">") (lit "&gt;")
    (py_replace (lit "<") (lit "&lt;")
       (py_replace (lit "&") (lit "&amp;") s)).

Definition escape_attrib (s : str) : str :=
  py_replace ["009"%char] (lit "&#09;")
    (py_replace [nl] (lit "&#10;")
       (py_replace ["013"%char] (lit "&#13;")
          (py_replace [dq] (lit "&quot;") (escape_cdata s)))).

Definition escape_opt (t : option str) : str :=
  match t with
  | None => []
  | Some s => escape_cdata s
  end.

Definition truthy (t : option str) : bool :=
  match t with
  | Some (_ :: _) => true
  | _ => false
  end.

(** [_serialize_xml] with [short_empty_elements=True] *)
Fixpoint serialize_xml (e : Element) : str :=
  match e with
  | Elem g a x y cs =>
      lit "<" ++ g
        ++ flat_map (fun kv => lit " " ++ fst kv ++ lit "=" ++ dq :: escape_attrib (snd kv) ++ [dq]) a
        ++ (if truthy x || negb (Nat.eqb (length cs) 0)
            then lit ">" ++ escape_opt x ++ flat_map serialize_xml cs
                   ++ lit "</" ++ g ++ lit ">"
            else lit " />")
        ++ escape_opt y
  end.

Definition declaration : str := lit "<?xml version='1.0' encoding='utf-8'?>" ++ [nl].

Definition write (root : Element) : str := declaration ++ serialize_xml root.

(** ** Parsing *)

Definition xml_space (c : ascii) : bool :=
  let n := nat_of_ascii c in (n =? 32) || (n =? 9) || (n =? 10) || (n =? 13).

Fixpoint skip_space (s : str) : str :=
  match s with
  | c :: s' => if xml_space c then skip_space s' else s
  | [] => []
  end.

Definition name_char (c : ascii) : bool :=
  negb (xml_space c || Ascii.eqb c "/"%char || Ascii.eqb c ">"%char
        || Ascii.eqb c "="%char || Ascii.eqb c "<"%char).

Fixpoint span (p : ascii -> bool) (s : str) : str * str :=
  match s with
  | c :: s' => if p c then let (a, b) := span p s' in (c :: a, b) else ([], s)
  | [] => ([], [])
  end.

(** The predefined entity whose name starts [s] (after the ampersand):
    its character and the length of its name with the semicolon. *)
Definition entity (s : str) : option (ascii * nat) :=
  if starts_with (lit "lt;") s then Some ("<"%char, 3)
  else if starts_with (lit "gt;") s then Some (">"%char, 3)
  else if starts_with (lit "amp;") s then Some ("&"%char, 4)
  else if starts_with (lit "quot;") s then Some (dq, 5)
  else if starts_with (lit "apos;") s then Some ("'"%char, 5)
  else None.

(** Text up to the next [stop] character, entities decoded; [skip]
    counts the characters of an entity name still to be passed. *)
Fixpoint chardata (stop : ascii -> bool) (skip : nat) (s : str)
  : option (str * str) :=
  match s with
  | [] => Some ([], [])
  | c :: s' =>
      match skip with
      | S k => chardata stop k s'
      | O =>
          if stop c then Some ([], s)
          else if Ascii.eqb c "&"%char then
            match entity s' with
            | Some (x, n) =>
                match chardata stop n s' with
                | Some (t, r) => Some (x :: t, r)
                | None => None
                end
            | None => None
            end
          else
            match chardata stop 0 s' with
            | Some (t, r) => Some (c :: t, r)
            | None => None
            end
      end
  end.

Definition opt_text (t : str) : option str :=
  match t with
  | [] => None
  | _ => Some t
  end.

(** The attributes of a start tag, up to its end. The result says
    whether the tag closes itself. *)
Fixpoint attributes (fuel : nat) (s : str) : option (dict str * bool * str) :=
  match fuel with
  | O => None
  | S fuel' =>
      match skip_space s with
      | c :: r =>
          if Ascii.eqb c ">"%char then Some ([], false, r)
          else if Ascii.eqb c "/"%char then
            match r with
            | g :: r' => if Ascii.eqb g ">"%char then Some ([], true, r') else None
            | [] => None
            end
          else
            let (name, r1) := span name_char (c :: r) in
            match name, skip_space r1 with
            | _ :: _, e :: r2 =>
                if Ascii.eqb e "="%char then
                  match skip_space r2 with
                  | q :: r3 =>
                      if Ascii.eqb q dq || Ascii.eqb q "'"%char then
                        match chardata (fun x => Ascii.eqb x q || Ascii.eqb x "<"%char) 0 r3 with
                        | Some (v, q' :: r4) =>
                            if Ascii.eqb q' q then
                              match attributes fuel' r4 with
                              | Some (a, sc, r5) => Some ((name, v) :: a, sc, r5)
                              | None => None
                              end
                            else None
                        | _ => None
                        end
                      else None
                  | [] => None
                  end
                else None
            | _, _ => None
            end
      | [] => None
      end
  end.

Definition is_lt (c : ascii) : bool := Ascii.eqb c "<"%char.

(** The content of an element: its leading text and its children with
    their tails, up to and including the [</] of the end tag. An element
    starts after its [<]. *)
Fixpoint parse_content (fuel : nat) (s : str)
  : option (option str * list Element * str) :=
  match fuel with
  | O => None
  | S fuel' =>
      match chardata is_lt 0 s with
      | Some (t, _ :: c :: r) =>
          if Ascii.eqb c "/"%char then Some (opt_text t, [], r)
          else
            let (name, r1) := span name_char (c :: r) in
            match name, attributes (length r1 + 1) r1 with
            | _ :: _, Some (a, true, r2) =>
                match parse_content fuel' r2 with
                | Some (tl, sibs, r3) =>
                    Some (opt_text t, Elem name a None tl [] :: sibs, r3)
                | None => None
                end
            | _ :: _, Some (a, false, r2) =>
                match parse_content fuel' r2 with
                | Some (x, cs, r3) =>
                    let (name', r4) := span name_char r3 in
                    match str_eqb name' name, skip_space r4 with
                    | true, g :: r5 =>
                        if Ascii.eqb g ">"%char then
                          match parse_content fuel' r5 with
                          | Some (tl, sibs, r6) =>
                              Some (opt_text t, Elem name a x tl cs :: sibs, r6)
                          | None => None
                          end
                        else None
                    | _, _ => None
                    end
                | None => None
                end
            | _, _ => None
            end
      | _ => None
      end
  end.

Definition skip_declaration (s : str) : option str :=
  if starts_with (lit "<?xml") s then
    match find_first (lit "?>") s with
    | Some i => Some (skipn (i + 2) s)
    | None => None
    end
  else Some s.

Definition all_space (t : option str) : bool :=
  match t with
  | None => true
  | Some s => forallb xml_space s
  end.

(** [ET.parse(file).getroot()] on the bytes of the file: one root
    element, white space around it, its tail [None]. *)
Definition parse (s : str) : option Element :=
  match skip_declaration s with
  | None => None
  | Some body =>
      match parse_content (length body + 2) (body ++ lit "</") with
      | Some (lead, [root], []) =>
          if all_space lead && all_space (tail root)
          then Some (set_tail root None)
          else None
      | _ => None
      end
  end.

End Plain.

(* ================================================================== *)
(** * Notions used by the statements *)
(* ================================================================== *)

(** The opening text of the pattern without its quote. *)
Definition name_lit : str := lit "<string name=".

Definition key_char (c : ascii) : bool :=
  negb (Ascii.eqb c dq || Ascii.eqb c "<"%char || Ascii.eqb c ">"%char).

(** A key the scripts can write and find again: not empty, and free of
    the double quote and the angle brackets. Resource identifiers are of
    this kind. *)
Definition key_ok (k : str) : bool :=
  match k with
  | [] => false
  | _ => forallb key_char k
  end.

(** The planner in the words of the specification: the candidate entries
    whose key is not among the existing keys, in candidate order. *)
Definition plan (existing : list str) (candidates : dict str) : dict str :=
  filter (fun kv => negb (mem (fst kv) existing)) candidates.


(** ** Observations on files *)






(** A file system with one file, readable, and writable or not. *)
Definition single_file (p : path) (c : str) (w : bool) : fs :=
  fun q => if str_eqb q p then Some (mkFile c true w) else None.

(** ** Sample inputs *)

Module Samples.

(** An entry line as the text scripts write it, and a resources file
    made of lines. *)
Definition entry (k v : str) : str :=
  lit "    " ++ open_tag k ++ v ++ close_string.

Definition resources (lines : list str) : str :=
  lit "<resources>" ++ [nl] ++ flat_map (fun l => l ++ [nl]) lines
    ++ lit "</resources>" ++ [nl].

(** A file that has the marker entry of the WiFi script and already
    holds the hint entry, but not the banner entry. *)
Definition wifi_partial : str :=
  resources [entry (lit "premium_settings_new_tags_desc") (lit "x");
             entry Wifi.hint_key (lit "old")].

(** A file with the marker entry only. *)
Definition wifi_fresh : str :=
  resources [entry (lit "premium_settings_new_tags_desc") (lit "x")].

Definition wifi_en : dict str :=
  [(lit "banner", lit "B"); (lit "button", lit "U"); (lit "hint", lit "H")].

Definition wifi_table : dict (dict str) := [(lit "en", wifi_en)].

(** A one-line file with one entry. *)
Definition one_line : str :=
  lit "<resources>" ++ open_tag (lit "a") ++ lit "x" ++ close_string
    ++ lit "</resources>".

(** An entry that carries a second attribute. *)
Definition with_attribute : str :=
  lit "<resources><string name=" ++ dq :: lit "a" ++ dq
    :: lit " translatable=" ++ dq :: lit "false" ++ dq
    :: lit ">x</string></resources>".


(** A file that holds the key [k] but no closing tag of the
    collection. *)
Definition no_closing : str := entry (lit "k") (lit "v").

Definition kv : dict str := [(lit "k", lit "v")].
Definition av : dict str := [(lit "a", lit "y")].

(** The folder map the security runs below use: that of the script. *)
Definition folders : dict str := Security.LANG_FOLDERS.

Definition fr_file : path := Security.strings_file (lit "values-fr").
Definition es_file : path := Security.strings_file (lit "values-es").



(** The files of the runs below, before and after. *)
Definition wifi_en_file : path := Wifi.strings_file (lit "values-en").

Definition wifi_partial_fs : fs := single_file wifi_en_file wifi_partial true.

Definition wifi_partial_out : str :=
  lit "<resources>" ++ [nl]
    ++ entry (lit "premium_settings_new_tags_desc") (lit "x")
    ++ Wifi.new_strings (lit "B") (lit "U") (lit "H")
    ++ [nl] ++ entry Wifi.hint_key (lit "old") ++ [nl]
    ++ lit "</resources>" ++ [nl].

Definition wifi_partial_after : fs := fs_write wifi_partial_fs wifi_en_file wifi_partial_out.

Definition fr_alone : fs := single_file fr_file (resources []) true.

Definition fr_after : fs := fs_write fr_alone fr_file (resources [entry (lit "k") (lit "v")]).

Definition fr_2fa : path := TwoFA.file_path (lit "fr").

Definition one_line_fs : fs := single_file fr_2fa one_line true.

Definition wifi_fr_file : path := Wifi.strings_file (lit "values-fr").

Definition wifi_fr_fs : fs := single_file wifi_fr_file wifi_fresh true.

(** The tree the 2FA script writes for [one_line] and the key [k]. *)
Definition one_line_tree : TwoFA.Element :=
  TwoFA.Elem (lit "resources") [] (Some (TwoFA.indentation 1)) None
    [TwoFA.Elem (lit "string") [(lit "name", lit "a")] (Some (lit "x"))
       (Some (TwoFA.indentation 1)) [];
     TwoFA.Elem (lit "string") [(lit "name", lit "k")] (Some (lit "v"))
       (Some (TwoFA.indentation 0)) []].

Definition one_line_after : fs := fs_write one_line_fs fr_2fa (Plain.write one_line_tree).


Definition no_closing_fs : fs := single_file fr_file no_closing true.

(** A file without closing tag, marker or entry. *)
Definition fr_no_anchor : str := lit "<resources>" ++ [nl].


(** The tree the 2FA script writes for [with_markup] and the key [k]. *)
Definition markup_tree : TwoFA.Element :=
  TwoFA.Elem (lit "resources") [] (Some (TwoFA.indentation 1)) None
    [TwoFA.Elem (lit "string") [(lit "name", lit "t")]
       (Some (TwoFA.indentation 2)) (Some (TwoFA.indentation 1))
       [TwoFA.Elem (lit "b") [] (Some (lit "x")) (Some (TwoFA.indentation 1)) []];
     TwoFA.Elem (lit "string") [(lit "name", lit "k")] (Some (lit "v"))
       (Some (TwoFA.indentation 0)) []].


(** A table that gives the key [a] another value and brings the key [k]. *)
Definition akv : dict str := [(lit "a", lit "y"); (lit "k", lit "v")].

Definition fr_with_a : str := resources [entry (lit "a") (lit "x")].

Definition fr_with_a_fs : fs := single_file fr_file fr_with_a true.

Definition fr_with_a_after : fs :=
  fs_write fr_with_a_fs fr_file
    (resources [entry (lit "a") (lit "x"); entry (lit "k") (lit "v")]).

End Samples.

(** ** Notions for the loops, the paths and text mode *)

(** A language code that ends with neither separator of the Windows path
    module. *)
Definition plain_code (lang_code : str) : bool :=
  negb (ends_with_char "\"%char lang_code || ends_with_char "/"%char lang_code).

(** One row of the table of the 2FA script, processed on its own: what
    the body of the loop of [main] reports for it. *)
Definition twofa_alone (ET_parse : str -> option TwoFA.Element)
           (ET_write : TwoFA.Element -> str) (d : fs) (row : str * dict str)
  : str * outcome :=
  let p := TwoFA.file_path (fst row) in
  (fst row,
   if exists_file d p
   then fst (TwoFA.add_translations_to_file ET_parse ET_write p (snd row) d)
   else NotFound).

Definition cr : ascii := "013"%char.

(** [f.read()] on a file the text scripts open by
    [open(path, 'r', encoding='utf-8')], on the decoded bytes of the file:
    the newline argument is left at its default, so a carriage return with
    a line feed, and then a carriage return alone, become a line feed. The
    [content] of a file in the runs of the text scripts is this text. *)
Definition read_text (bytes : str) : str :=
  py_replace [cr] [nl] (py_replace [cr; nl] [nl] bytes).

(** [f.write(text)] on a file opened by [open(path, 'w', encoding='utf-8')]:
    every line feed is written as [os.linesep]. *)
Definition write_text (linesep text : str) : str := py_replace [nl] linesep text.

(** ** More sample inputs *)

Module MoreSamples.
Import Samples.








(** A table without the English row. *)
Definition wifi_fr_only : dict (dict str) := [(lit "fr", wifi_en)].

(** A file in which the closing tag stands twice, the first time in a
    line of text, cut at the closing tags. *)
Definition two_closings : list str :=
  [lit "<resources>" ++ [nl] ++ lit "put entries before ";
   [nl];
   [nl]].

Definition two_closings_fs : fs :=
  single_file fr_file (py_join Security.closing two_closings) true.

Definition two_closings_out : str :=
  lit "<resources>" ++ [nl] ++ lit "put entries before "
    ++ entry (lit "k") (lit "v") ++ [nl] ++ lit "</resources>" ++ [nl]
    ++ entry (lit "k") (lit "v") ++ [nl] ++ lit "</resources>" ++ [nl].

(** A table with a row for the locale the loop of the security script
    skips. *)
Definition de_and_fr : dict (dict str) := [(lit "de", kv); (lit "fr", kv)].

(** Two locale files for the 2FA script, and a table for them and for a
    third locale that has no file. *)
Definition es_2fa : path := TwoFA.file_path (lit "es").

Definition fr_es_2fa : fs :=
  fun q => if str_eqb q fr_2fa then Some (mkFile one_line true true)
           else if str_eqb q es_2fa then Some (mkFile with_attribute true true)
           else None.

Definition three_locales : dict (dict str) :=
  [(lit "fr", kv); (lit "es", av); (lit "it", kv)].




(** The same for the WiFi script, with a third folder that has no
    file. *)
Definition wifi_fr_en_folders : dict str :=
  [(lit "fr", lit "values-fr"); (lit "en", lit "values-en"); (lit "it", lit "values-it")].

Definition wifi_fr_en_files : fs :=
  fun q => if str_eqb q wifi_fr_file then Some (mkFile wifi_fresh true true)
           else if str_eqb q wifi_en_file then Some (mkFile wifi_partial true true)
           else None.

Definition wifi_fresh_out : str :=
  lit "<resources>" ++ [nl]
    ++ entry (lit "premium_settings_new_tags_desc") (lit "x")
    ++ Wifi.new_strings (lit "B") (lit "U") (lit "H")
    ++ [nl] ++ lit "</resources>" ++ [nl].

Definition wifi_fr_en_after : fs :=
  fs_write (fs_write wifi_fr_en_files wifi_fr_file wifi_fresh_out)
    wifi_en_file wifi_partial_out.

End MoreSamples.

(* ================================================================== *)
(** * Facts on strings *)
(* ================================================================== *)

Lemma str_eqb_eq (a b : str) : str_eqb a b = true <-> a = b.
Proof.
  revert b; induction a as [|x a IH]; intros [|y b]; simpl; split; intro H;
    try reflexivity; try discriminate.
  - apply andb_true_iff in H as [H1 H2].
    apply Ascii.eqb_eq in H1. apply IH in H2. congruence.
  - injection H as -> ->. rewrite Ascii.eqb_refl. simpl. now apply IH.
Qed.

Lemma str_eqb_refl (a : str) : str_eqb a a = true.
Proof. now apply str_eqb_eq. Qed.

Lemma str_eqb_neq (a b : str) : str_eqb a b = false <-> a <> b.
Proof.
  split; intro H.
  - intro E. apply str_eqb_eq in E. congruence.
  - destruct (str_eqb a b) eqn:E; [apply str_eqb_eq in E; contradiction | reflexivity].
Qed.

Lemma mem_In (k : str) (s : list str) : mem k s = true <-> In k s.
Proof.
  unfold mem. rewrite existsb_exists. split.
  - intros (x & Hx & E). apply str_eqb_eq in E. now subst.
  - intro H. exists k. split; [assumption | apply str_eqb_refl].
Qed.

Lemma starts_with_spec (p s : str) :
  starts_with p s = true <-> exists r, s = p ++ r.
Proof.
  revert s; induction p as [|x p IH]; intros s; simpl.
  - split; [intros _; now exists s | reflexivity].
  - destruct s as [|y s].
    + split; [discriminate | intros (r & H); discriminate].
    + rewrite andb_true_iff, Ascii.eqb_eq, IH. split.
      * intros (-> & r & ->). now exists r.
      * intros (r & H). injection H as -> ->. split; [reflexivity | now exists r].
Qed.

Lemma starts_with_app (p r : str) : starts_with p (p ++ r) = true.
Proof. apply starts_with_spec. now exists r. Qed.

Lemma contains_spec (sub s : str) :
  contains sub s = true <-> exists a b, s = a ++ sub ++ b.
Proof.
  induction s as [|c s IH]; simpl.
  - rewrite starts_with_spec. split.
    + intros (r & H). exists [], r. exact H.
    + intros (a & b & H). destruct a; simpl in H.
      * now exists b.
      * discriminate.
  - rewrite orb_true_iff, starts_with_spec, IH. split.
    + intros [(r & H) | (a & b & H)].
      * exists [], r. exact H.
      * exists (c :: a), b. simpl. now rewrite H.
    + intros (a & b & H). destruct a as [|x a]; simpl in H.
      * left. now exists b.
      * right. injection H as -> ->. now exists a, b.
Qed.

Lemma contains_mid (sub a b : str) : contains sub (a ++ sub ++ b) = true.
Proof. apply contains_spec. now exists a, b. Qed.

Lemma contains_app_l (sub s t : str) :
  contains sub s = true -> contains sub (s ++ t) = true.
Proof.
  rewrite !contains_spec. intros (a & b & ->). exists a, (b ++ t).
  now rewrite <- !app_assoc.
Qed.

Lemma contains_app_r (sub s t : str) :
  contains sub t = true -> contains sub (s ++ t) = true.
Proof.
  rewrite !contains_spec. intros (a & b & ->). exists (s ++ a), b.
  now rewrite <- !app_assoc.
Qed.

(** The first occurrence splits the string. *)
Lemma find_first_split (sub s : str) (n : nat) :
  find_first sub s = Some n ->
  s = firstn n s ++ sub ++ skipn (n + length sub) s.
Proof.
  revert n; induction s as [|c s IH]; intros n; simpl.
  - destruct (starts_with sub []) eqn:E; [|discriminate].
    intros [= <-]. apply starts_with_spec in E as (r & E).
    destruct sub; [reflexivity | discriminate].
  - destruct (starts_with sub (c :: s)) eqn:E.
    + intros [= <-]. apply starts_with_spec in E as (r & E). simpl.
      rewrite E at 1. f_equal. rewrite E.
      now rewrite skipn_app, skipn_all, Nat.sub_diag.
    + destruct (find_first sub s) as [m|] eqn:F; [|discriminate].
      simpl. intros [= <-]. simpl. f_equal. now apply IH.
Qed.

Lemma find_first_none (sub s : str) :
  find_first sub s = None <-> contains sub s = false.
Proof.
  induction s as [|c s IH]; simpl.
  - destruct (starts_with sub []); split; intro; congruence.
  - destruct (starts_with sub (c :: s)); simpl.
    + split; discriminate.
    + rewrite <- IH. destruct (find_first sub s); simpl; split; congruence.
Qed.

(** [s[:n] + s[n:] == s] for every integer [n]. *)
Lemma slice_join (s : str) (n : Z) : slice_to s n ++ slice_from s n = s.
Proof. apply firstn_skipn. Qed.

(** ** str.replace *)

Lemma replace_go_skip (old new : str) (k : nat) (s : str) :
  replace_go old new k s = replace_go old new 0 (skipn k s).
Proof.
  revert k; induction s as [|c s IH]; intros [|k]; simpl; try reflexivity.
  apply IH.
Qed.

Lemma replace_hit (old new s : str) :
  old <> [] -> starts_with old s = true ->
  py_replace old new s = new ++ py_replace old new (skipn (length old) s).
Proof.
  intros Hne H. unfold py_replace. destruct s as [|c s].
  - destruct old; [contradiction | discriminate].
  - simpl replace_go at 1. rewrite H. f_equal. rewrite replace_go_skip.
    destruct old as [|o old]; [contradiction|]. simpl. now rewrite Nat.sub_0_r.
Qed.

Lemma replace_miss (old new : str) (c : ascii) (s : str) :
  starts_with old (c :: s) = false ->
  py_replace old new (c :: s) = c :: py_replace old new s.
Proof. intro H. unfold py_replace. simpl. now rewrite H. Qed.

Lemma replace_absent (old new s : str) :
  contains old s = false -> py_replace old new s = s.
Proof.
  induction s as [|c s IH]; simpl; [reflexivity|].
  intro H. apply orb_false_iff in H as [H1 H2].
  rewrite replace_miss by exact H1. now rewrite IH.
Qed.

(** Up to the first occurrence the text is copied. *)
Lemma replace_first (old new s : str) (n : nat) :
  old <> [] -> find_first old s = Some n ->
  py_replace old new s
  = firstn n s ++ new ++ py_replace old new (skipn (n + length old) s).
Proof.
  intro Hne. revert n; induction s as [|c s IH]; intros n; simpl find_first.
  - destruct (starts_with old []) eqn:E; [|discriminate].
    destruct old; [contradiction | discriminate].
  - destruct (starts_with old (c :: s)) eqn:E.
    + intros [= <-]. simpl firstn. simpl app at 1.
      now rewrite replace_hit.
    + destruct (find_first old s) as [m|] eqn:F; [|discriminate].
      simpl. intros [= <-]. rewrite replace_miss by exact E.
      simpl. f_equal. now apply IH.
Qed.

Lemma contains_cons (sub : str) (c : ascii) (s : str) :
  contains sub s = true -> contains sub (c :: s) = true.
Proof. apply (contains_app_r sub [c] s). Qed.


(** ** Writing a file *)

Lemma fs_write_same (d : fs) (p : path) (c : str) (f : file) :
  d p = Some f ->
  fs_write d p c p = Some (mkFile c (readable f) (writable f)).
Proof. intro H. unfold fs_write. now rewrite str_eqb_refl, H. Qed.

Lemma fs_write_other (d : fs) (p q : path) (c : str) :
  q <> p -> fs_write d p c q = d q.
Proof. intro H. unfold fs_write. apply str_eqb_neq in H. now rewrite H. Qed.

(** ** The planner *)

Lemma plan_spec (existing : list str) (tr : dict str) (kv : str * str) :
  In kv (plan existing tr) <-> In kv tr /\ ~ In (fst kv) existing.
Proof.
  unfold plan. rewrite filter_In, negb_true_iff, <- mem_In.
  destruct (mem (fst kv) existing); intuition congruence.
Qed.





(* ================================================================== *)
(** * Facts on the pattern of the security script *)
(* ================================================================== *)

Module SecurityFacts.
Import Security.

Lemma open_lit_eq : open_lit = name_lit ++ [dq].
Proof. reflexivity. Qed.

Lemma open_tag_eq (k : str) : open_tag k = open_lit ++ k ++ [dq; ">"%char].
Proof. unfold open_tag, open_lit. now rewrite <- app_assoc. Qed.

Lemma strip_prefix_spec (p s r : str) :
  strip_prefix p s = Some r <-> s = p ++ r.
Proof.
  revert s; induction p as [|x p IH]; intros s; simpl.
  - split; congruence.
  - destruct s as [|y s]; [split; discriminate|].
    destruct (Ascii.eqb x y) eqn:E.
    + apply Ascii.eqb_eq in E. subst y. rewrite IH. split; congruence.
    + apply Ascii.eqb_neq in E. split; [discriminate | congruence].
Qed.

Lemma span_key_spec (s k r : str) :
  span_key s = (k, r) ->
  s = k ++ r /\ ~ In dq k /\ (r = [] \/ exists r', r = dq :: r').
Proof.
  revert k r; induction s as [|c s IH]; intros k r; simpl.
  - intros [= <- <-]. auto.
  - destruct (Ascii.eqb c dq) eqn:E.
    + apply Ascii.eqb_eq in E. subst c. intros [= <- <-].
      split; [reflexivity|]. split; [auto|]. right. now exists s.
    + apply Ascii.eqb_neq in E. destruct (span_key s) as [k0 r0].
      intros [= <- <-]. destruct (IH _ _ eq_refl) as (-> & Hk & Hr).
      split; [reflexivity|]. split; [|exact Hr].
      simpl. intros [H|H]; [congruence | contradiction].
Qed.

Lemma span_key_app (x y : str) :
  ~ In dq x -> span_key (x ++ dq :: y) = (x, dq :: y).
Proof.
  induction x as [|c x IH]; simpl; intro H.
  - reflexivity.
  - destruct (Ascii.eqb c dq) eqn:E.
    + apply Ascii.eqb_eq in E. subst. exfalso. auto.
    + rewrite IH by tauto. reflexivity.
Qed.

Lemma match_here_spec (s k : str) (len : nat) :
  match_here s = Some (k, len) <->
  (exists rest, s = open_lit ++ k ++ dq :: ">"%char :: rest)
  /\ k <> [] /\ ~ In dq k /\ len = length open_lit + length k + 2.
Proof.
  unfold match_here. split.
  - destruct (strip_prefix open_lit s) as [r|] eqn:P; [|discriminate].
    apply strip_prefix_spec in P. subst s.
    destruct (span_key r) as [k0 r0] eqn:S.
    apply span_key_spec in S as (-> & Hk & _).
    destruct k0 as [|c k0]; [discriminate|].
    destruct r0 as [|q [|g r0]]; try discriminate.
    destruct (Ascii.eqb q dq && Ascii.eqb g ">") eqn:E; [|discriminate].
    apply andb_true_iff in E as [E1 E2].
    apply Ascii.eqb_eq in E1, E2. subst. intros [= <- <-].
    repeat split; try assumption; [now exists r0 | discriminate].
  - intros ((rest & ->) & Hne & Hk & ->).
    assert (P : strip_prefix open_lit (open_lit ++ k ++ dq :: ">"%char :: rest)
                = Some (k ++ dq :: ">"%char :: rest)) by now apply strip_prefix_spec.
    rewrite P, span_key_app by exact Hk.
    destruct k as [|c k]; [contradiction|].
    now rewrite !Ascii.eqb_refl.
Qed.

Lemma findall_go_skip (k : nat) (s : str) :
  findall_go k s = findall_go 0 (skipn k s).
Proof.
  revert k; induction s as [|c s IH]; intros [|k]; simpl; try reflexivity.
  apply IH.
Qed.

Lemma match_here_nil : match_here [] = None.
Proof. reflexivity. Qed.

Lemma findall_hit (s k : str) (len : nat) :
  match_here s = Some (k, len) ->
  findall_go 0 s = k :: findall_go 0 (skipn len s).
Proof.
  intro H. destruct s as [|c s]; [discriminate|].
  cbn [findall_go]. rewrite H. f_equal. rewrite findall_go_skip.
  apply match_here_spec in H as (_ & _ & _ & Hl).
  destruct len as [|n]; [lia|].
  replace (S n - 1) with n by lia. reflexivity.
Qed.

(** Every key the extraction returns stands in the file in the literal
    form. *)
Lemma findall_go_sound (k : str) (s : str) (skip : nat) :
  In k (findall_go skip s) -> contains (open_tag k) s = true.
Proof.
  revert skip; induction s as [|c s IH]; intros skip;
    cbn [findall_go contains]; [contradiction|].
  destruct skip as [|n].
  - destruct (match_here (c :: s)) as [[k' len]|] eqn:M.
    + intros [<- | H].
      * apply match_here_spec in M as ((rest & E) & _).
        apply orb_true_iff. left. apply starts_with_spec.
        exists rest. rewrite E, open_tag_eq, <- !app_assoc. reflexivity.
      * apply orb_true_iff. right. eapply IH, H.
    + intro H. apply orb_true_iff. right. eapply IH, H.
  - intro H. apply orb_true_iff. right. eapply IH, H.
Qed.

(** A literal whose later characters differ from [c] cannot start before
    an occurrence of [c] and run over it. *)
Lemma no_overlap (l a t r : str) (c : ascii) :
  l ++ r = a ++ c :: t -> a <> [] -> ~ In c (tl l) -> length l <= length a.
Proof.
  intros E Ha Hc.
  destruct (Nat.le_gt_cases (length l) (length a)) as [|Hlt]; [assumption|].
  exfalso. apply Hc.
  assert (N : nth (length a) l c = c).
  { rewrite <- (app_nth1 l r c Hlt), E, app_nth2, Nat.sub_diag by lia.
    reflexivity. }
  destruct l as [|x l]; [simpl in Hlt; lia|].
  destruct a as [|y a]; [contradiction|].
  cbn [length nth tl] in *. rewrite <- N. apply nth_In. lia.
Qed.

Lemma key_ok_facts (k : str) :
  key_ok k = true ->
  k <> [] /\ ~ In dq k /\ ~ In "<"%char k /\ ~ In ">"%char k.
Proof.
  unfold key_ok. destruct k as [|c k]; [discriminate|].
  intro H. rewrite forallb_forall in H.
  split; [discriminate|].
  repeat split; intro Hin; apply H in Hin; unfold key_char in Hin;
    rewrite ?Ascii.eqb_refl, ?orb_true_r in Hin; discriminate.
Qed.

Lemma name_lit_chars :
  ~ In dq name_lit /\ ~ In ">"%char name_lit /\ ~ In "<"%char (tl open_lit).
Proof.
  repeat split; intro H; cbv in H;
    repeat (destruct H as [H|H]; [discriminate H|]); exact H.
Qed.

Lemma gt_not_dq : ">"%char <> dq.
Proof. discriminate. Qed.

(** A match that starts before an entry in the literal form ends before
    that entry. *)
Lemma match_before (a b k k' : str) (len : nat) :
  key_ok k = true -> a <> [] ->
  match_here (a ++ open_tag k ++ b) = Some (k', len) ->
  len <= length a.
Proof.
  intros Hk Ha M.
  apply key_ok_facts in Hk as (Hne & Hq & _ & Hgt).
  destruct name_lit_chars as (Nq & Ngt & Nlt).
  apply match_here_spec in M as ((rest & E) & Hne' & Hq' & ->).
  assert (L : length open_lit <= length a).
  { apply (no_overlap open_lit a (tl (open_tag k ++ b))
             (k' ++ dq :: ">"%char :: rest) "<"%char); auto. }
  assert (exists a2, a = open_lit ++ a2
                     /\ k' ++ dq :: ">"%char :: rest = a2 ++ open_tag k ++ b)
    as (a2 & -> & E').
  { apply app_eq_app in E as (l & [[E1 E2] | [E1 E2]]).
    - exists l. now split.
    - assert (l = []) as ->.
      { apply length_zero_iff_nil.
        apply (f_equal (@length ascii)) in E1. rewrite length_app in E1. lia. }
      rewrite app_nil_r in E1. subst a. exists []. rewrite app_nil_r.
      split; [reflexivity|]. rewrite E2 at 1. reflexivity. }
  clear E L Ha. rewrite length_app.
  enough (length k' + 2 <= length a2) by lia.
  assert (T : open_tag k ++ b = name_lit ++ dq :: k ++ dq :: ">"%char :: b).
  { unfold open_tag, name_lit. rewrite <- app_assoc. cbn [app].
    now rewrite <- app_assoc. }
  rewrite T in E'. clear T.
  change (k' ++ dq :: ">"%char :: rest)
    with (k' ++ [dq; ">"%char] ++ rest) in E'.
  rewrite app_assoc in E'.
  apply app_eq_app in E' as (m & [[E1 E2] | [E1 E2]]).
  2: { apply (f_equal (@length ascii)) in E1. rewrite !length_app in E1.
       cbn [length] in E1. lia. }
  destruct m as [|x0 m0].
  { rewrite app_nil_r in E1. subst a2. rewrite length_app. cbn [length]. lia. }
  exfalso.
  destruct (@exists_last _ (x0 :: m0)) as (m' & z & Em); [discriminate|].
  rewrite Em in *. clear Em x0 m0.
  change (k' ++ [dq; ">"%char]) with (k' ++ [dq] ++ [">"%char]) in E1.
  rewrite !app_assoc in E1.
  apply app_inj_tail in E1 as [E1 <-].
  rewrite <- app_assoc in E2. cbn [app] in E2.
  apply app_eq_app in E2 as (n & [[F1 F2] | [F1 F2]]).
  - destruct n as [|x n]; cbn [app] in F2.
    + injection F2 as F2 _. now apply gt_not_dq.
    + injection F2 as <- _. apply Ngt. rewrite F1. apply in_or_app.
      right. now left.
  - destruct n as [|x n]; cbn [app] in F2.
    + injection F2 as F2 _. apply gt_not_dq. now symmetry.
    + injection F2 as <- F2. subst m'.
      destruct n as [|y n0].
      * cbn [app] in F2. destruct k as [|c k]; [contradiction|].
        injection F2 as -> _. apply Hgt. now left.
      * destruct (@exists_last _ (y :: n0)) as (n3 & z' & En); [discriminate|].
        rewrite En in *. clear En.
        rewrite !app_assoc in E1.
        change (dq :: n3 ++ [z']) with ((dq :: n3) ++ [z']) in E1.
        rewrite !app_assoc in E1.
        apply app_inj_tail in E1 as [E1 _].
        apply Hq'. rewrite E1. rewrite <- !app_assoc.
        apply in_or_app. right. apply in_or_app. right. now left.
Qed.

(** An entry in the literal form with a plain key is always found. *)
Lemma findall_go_complete (k a b : str) (skip : nat) :
  key_ok k = true -> skip <= length a ->
  In k (findall_go skip (a ++ open_tag k ++ b)).
Proof.
  intro Hk. revert skip. induction a as [|c a IH]; intros skip Hs.
  - assert (skip = 0) as -> by (simpl in Hs; lia).
    cbn [app].
    destruct (key_ok_facts k Hk) as (Hne & Hq & _).
    assert (M : match_here (open_tag k ++ b)
                = Some (k, length open_lit + length k + 2)).
    { apply match_here_spec. repeat split; auto.
      exists b. rewrite open_tag_eq, <- !app_assoc. reflexivity. }
    rewrite (findall_hit _ _ _ M). now left.
  - cbn [app findall_go]. destruct skip as [|n].
    + destruct (match_here (c :: a ++ open_tag k ++ b)) as [[k' len]|] eqn:M.
      * right. apply IH.
        apply (match_before (c :: a) b) in M; [|assumption|discriminate].
        cbn [length] in M. lia.
      * apply IH. lia.
    + apply IH. cbn [length] in Hs. lia.
Qed.

Lemma findall_complete (k s : str) :
  key_ok k = true -> contains (open_tag k) s = true -> In k (findall s).
Proof.
  intros Hk H. apply contains_spec in H as (a & b & ->).
  apply findall_go_complete; [assumption | lia].
Qed.

Lemma findall_sound (k s : str) :
  In k (findall s) -> contains (open_tag k) s = true.
Proof. apply findall_go_sound. Qed.

End SecurityFacts.

(* ================================================================== *)
(** * Runs of the security script *)
(* ================================================================== *)

Module SecurityRun.
Import Security SecurityFacts.

Lemma closing_head (c : ascii) (s : str) :
  c <> "<"%char -> starts_with closing (c :: s) = false.
Proof.
  intro H. cbn [closing lit list_ascii_of_string starts_with].
  destruct (Ascii.eqb "<" c) eqn:E; [|reflexivity].
  apply Ascii.eqb_eq in E. congruence.
Qed.

(** Text without [<] is copied by the replacement. *)
Lemma replace_plain (new x b : str) :
  ~ In "<"%char x ->
  py_replace closing new (x ++ b) = x ++ py_replace closing new b.
Proof.
  induction x as [|c x IH]; intro H; [reflexivity|].
  cbn [app]. rewrite replace_miss.
  - rewrite IH; [reflexivity|]. intro. apply H. now right.
  - apply closing_head. intro. apply H. now left.
Qed.

Lemma open_tag_cons (k : str) :
  open_tag k = "<"%char :: "s"%char :: lit "tring name=" ++ dq :: k ++ dq :: lit ">".
Proof. reflexivity. Qed.

Lemma replace_open_tag (new k b : str) :
  ~ In "<"%char k ->
  py_replace closing new (open_tag k ++ b)
  = open_tag k ++ py_replace closing new b.
Proof.
  intro H. rewrite open_tag_cons. cbn [app].
  rewrite replace_miss by reflexivity. f_equal.
  change ("s"%char :: (lit "tring name=" ++ dq :: k ++ dq :: lit ">") ++ b)
    with (("s"%char :: lit "tring name=" ++ dq :: k ++ dq :: lit ">") ++ b).
  rewrite replace_plain; [reflexivity|].
  intro Hin. cbn in Hin.
  repeat (destruct Hin as [Hin|Hin]; [discriminate Hin|]).
  apply in_app_or in Hin as [Hin|Hin]; [now apply H|].
  cbn in Hin. repeat (destruct Hin as [Hin|Hin]; [discriminate Hin|]).
  exact Hin.
Qed.

Lemma closing_tail : ~ In "<"%char (tl closing).
Proof.
  intro H; cbv in H.
  repeat (destruct H as [H|H]; [discriminate H|]); exact H.
Qed.

Lemma closing_nonempty : closing <> [].
Proof. discriminate. Qed.

(** An entry with a plain key survives the insertion before the closing
    tag. *)
Lemma replace_keeps_entry (blk k s : str) :
  key_ok k = true ->
  contains (open_tag k) s = true ->
  contains (open_tag k) (py_replace closing (blk ++ closing) s) = true.
Proof.
  intros Hk H. apply contains_spec in H as (a & b & ->).
  destruct (key_ok_facts k Hk) as (_ & _ & Hlt & _).
  remember (length a) as n eqn:Hn. revert a Hn.
  induction n as [n IH] using lt_wf_ind. intros a Hn.
  destruct a as [|c a].
  - cbn [app]. rewrite replace_open_tag by assumption.
    apply (contains_mid (open_tag k) []).
  - destruct (starts_with closing ((c :: a) ++ open_tag k ++ b)) eqn:S.
    + rewrite replace_hit by (assumption || apply closing_nonempty).
      apply contains_app_r.
      assert (L : length closing <= length (c :: a)).
      { apply starts_with_spec in S as (r & S).
        apply (no_overlap closing (c :: a) (tl (open_tag k ++ b)) r "<"%char).
        - rewrite <- S. reflexivity.
        - discriminate.
        - apply closing_tail. }
      rewrite skipn_app.
      replace (length closing - length (c :: a)) with 0 by lia.
      cbn [skipn]. apply (IH (length (skipn (length closing) (c :: a)))).
      * rewrite length_skipn. subst n. cbn [length closing lit list_ascii_of_string] in *. lia.
      * reflexivity.
    + cbn [app] in S |- *. rewrite replace_miss by exact S.
      apply contains_cons. apply (IH (length a)); [subst n; cbn; lia | reflexivity].
Qed.

Lemma string_line_eq (k v : str) :
  string_line k v = lit "    " ++ open_tag k ++ v ++ close_string.
Proof.
  unfold string_line. rewrite open_tag_eq, <- !app_assoc. reflexivity.
Qed.

Lemma join_contains (sep l : str) (ls : list str) :
  In l ls -> exists a b, py_join sep ls = a ++ l ++ b.
Proof.
  induction ls as [|x ls IH]; [contradiction|].
  intros [-> | H].
  - destruct ls as [|y ls].
    + exists [], []. cbn. now rewrite app_nil_r.
    + exists [], (sep ++ py_join sep (y :: ls)). reflexivity.
  - destruct (IH H) as (a & b & E). destruct ls as [|y ls]; [contradiction|].
    exists (x ++ sep ++ a), b. cbn [py_join] in *. rewrite E.
    now rewrite <- !app_assoc.
Qed.

Lemma new_strings_plan (c : str) (tr : dict str) :
  new_strings c tr = map (fun kv => string_line (fst kv) (snd kv)) (plan (existing_keys c) tr).
Proof. reflexivity. Qed.


(** After the insertion every candidate key is found in the file. *)
Lemma keys_found_after (c : str) (tr : dict str) (k : str) :
  key_ok k = true -> In k (keys tr) ->
  contains closing c = true ->
  In k (existing_keys
          (py_replace closing (translation_block (new_strings c tr) ++ closing) c)).
Proof.
  intros Hk Hin Hc. apply findall_complete; [assumption|].
  destruct (mem k (existing_keys c)) eqn:M.
  - apply replace_keeps_entry; [assumption|].
    apply findall_sound. now apply mem_In.
  - apply in_map_iff in Hin as ([k' v] & E & Hkv). cbn in E. subst k'.
    assert (In (string_line k v) (new_strings c tr)) as Hl.
    { rewrite new_strings_plan.
      apply (in_map (fun kv => string_line (fst kv) (snd kv)) _ (k, v)).
      apply plan_spec. split; [assumption|]. cbn.
      rewrite <- mem_In. congruence. }
    destruct (find_first closing c) as [n|] eqn:F.
    2: { apply find_first_none in F. congruence. }
    rewrite (replace_first closing _ _ _ closing_nonempty F).
    apply contains_app_r, contains_app_l, contains_app_l.
    unfold translation_block. apply contains_app_l.
    destruct (join_contains [nl] _ _ Hl) as (a & b & ->).
    apply contains_app_r, contains_app_l.
    rewrite string_line_eq. apply contains_mid.
Qed.

(** What a returning call leaves behind. *)
Lemma security_run_cases (LF : dict str) (lang : str) (tr : dict str) (d d' : fs) (o : outcome) :
  add_translations_to_file LF lang tr d = Ret (o, d') ->
  (d' = d /\ match o with Added _ => False | _ => True end)
  \/ exists folder f,
       dict_get LF lang = Some folder /\ folder <> []
       /\ d (strings_file folder) = Some f
       /\ readable f = true /\ writable f = true
       /\ contains closing (content f) = true
       /\ new_strings (content f) tr <> []
       /\ o = Added (length (new_strings (content f) tr))
       /\ d' = fs_write d (strings_file folder)
                 (py_replace closing
                    (translation_block (new_strings (content f) tr) ++ closing)
                    (content f)).
Proof.
  unfold add_translations_to_file. intro H.
  destruct (dict_get LF lang) as [[|x folder]|] eqn:G;
    try (injection H as <- <-; now left).
  destruct (d (strings_file (x :: folder))) as [f|] eqn:Df;
    [|injection H as <- <-; now left].
  destruct (readable f) eqn:R; cbn [negb] in H; cbv iota in H; [|discriminate H].
  destruct (new_strings (content f) tr) as [|l ls] eqn:N;
    [injection H as <- <-; now left|].
  destruct (contains closing (content f)) eqn:C;
    [|injection H as <- <-; now left].
  destruct (writable f) eqn:W; [|discriminate H].
  injection H as <- <-. right. exists (x :: folder), f.
  rewrite N. repeat split; try assumption; discriminate.
Qed.


End SecurityRun.

(* ================================================================== *)
(** * Runs of the WiFi script *)
(* ================================================================== *)

Module WifiRun.
Import Wifi.

Lemma new_strings_has_banner (b u h : str) :
  contains banner_key (new_strings b u h) = true.
Proof.
  apply contains_spec.
  exists ([nl; nl] ++ lit "    " ++ lit "<string name=" ++ [dq]).
  eexists. unfold new_strings, open_tag. rewrite <- !app_assoc.
  cbn [app]. reflexivity.
Qed.

Lemma wifi_run_cases (tr : dict (dict str)) (lang folder : str) (d d' : fs) (o : outcome) :
  process tr lang folder d = Ret (o, d') ->
  (d' = d /\ match o with Added _ => False | _ => True end)
  \/ exists f t b u h,
       d (strings_file folder) = Some f
       /\ readable f = true /\ writable f = true
       /\ contains banner_key (content f) = false
       /\ contains marker (content f) = true
       /\ select_trans tr lang = Ret t
       /\ dict_get t (lit "banner") = Some b
       /\ dict_get t (lit "button") = Some u
       /\ dict_get t (lit "hint") = Some h
       /\ o = Added 3
       /\ d' = fs_write d (strings_file folder)
                 (slice_to (content f) (newline_pos (content f))
                    ++ new_strings b u h
                    ++ slice_from (content f) (newline_pos (content f))).
Proof.
  unfold process. intro H.
  destruct (d (strings_file folder)) as [f|] eqn:Df;
    [|injection H as <- <-; now left].
  destruct (readable f) eqn:R; cbn [negb] in H; cbv iota in H; [|discriminate H].
  destruct (contains banner_key (content f)) eqn:B;
    [injection H as <- <-; now left|].
  destruct (contains marker (content f)) eqn:M; cbn [negb] in H; cbv iota in H;
    [|injection H as <- <-; now left].
  destruct (select_trans tr lang) as [t|] eqn:S; [|discriminate H].
  destruct (dict_get t (lit "banner")) as [b|] eqn:Gb; [|discriminate H].
  destruct (dict_get t (lit "button")) as [u|] eqn:Gu; [|discriminate H].
  destruct (dict_get t (lit "hint")) as [h|] eqn:Gh; [|discriminate H].
  destruct (writable f) eqn:W; [|discriminate H].
  injection H as <- <-. right. exists f, t, b, u, h. repeat split; assumption.
Qed.

(** A second run of the WiFi script on the result of the first writes
    nothing. *)
Lemma wifi_second_run (tr : dict (dict str)) (lang folder : str) (d d' : fs) (o : outcome) :
  process tr lang folder d = Ret (o, d') ->
  exists o2, process tr lang folder d' = Ret (o2, d')
             /\ match o with Added _ => o2 = NoOp | _ => o2 = o end.
Proof.
  intro H.
  destruct (wifi_run_cases _ _ _ _ _ _ H)
    as [[-> Ho] | (f & t & b & u & h & Df & R & W & B & M & S & Gb & Gu & Gh & -> & ->)].
  - exists o. split; [assumption|]. now destruct o.
  - exists NoOp. split; [|reflexivity].
    unfold process. rewrite (fs_write_same _ _ _ _ Df).
    cbn [readable content]. rewrite R. cbn [negb]. cbv iota.
    now rewrite contains_app_r by (apply contains_app_l, new_strings_has_banner).
Qed.


End WifiRun.

(* ================================================================== *)
(** * Facts on the 2FA script *)
(* ================================================================== *)

Module TwoFAFacts.
Import TwoFA.

Lemma Element_forall_ind (P : Element -> Prop) :
  (forall g a x y cs, Forall P cs -> P (Elem g a x y cs)) ->
  forall e, P e.
Proof.
  intro H. fix IH 1. intros [g a x y cs]. apply H.
  induction cs as [|c cs IHcs]; constructor; [apply IH | exact IHcs].
Qed.

Lemma descendants_eq (e : Element) : descendants e = flat_map own (children e).
Proof. destruct e. reflexivity. Qed.

Lemma ws_variant_refl (e : Element) : ws_variant e e.
Proof. unfold ws_variant. auto. Qed.

Lemma ws_variant_set_tail (e e' : Element) (t : option str) :
  ws_variant e e' -> ws_variant e (set_tail e' t).
Proof. destruct e'. exact (fun H => H). Qed.

Lemma own_set_tail (e : Element) (t : option str) :
  own (set_tail e t) = set_tail e t :: descendants e.
Proof. destruct e. reflexivity. Qed.

Lemma Forall2_refl_on {A} (R : A -> A -> Prop) (l : list A) :
  (forall x, R x x) -> Forall2 R l l.
Proof. intro H. induction l; constructor; auto. Qed.

Lemma Forall2_flat_map {A B} (Q : A -> A -> Prop) (R : B -> B -> Prop)
      (f : A -> list B) (l l' : list A) :
  (forall c c', Q c c' -> Forall2 R (f c) (f c')) ->
  Forall2 Q l l' -> Forall2 R (flat_map f l) (flat_map f l').
Proof.
  intros H F. induction F as [|c c' l l' Hc _ IH]; cbn [flat_map].
  - constructor.
  - apply Forall2_app; [now apply H | exact IH].
Qed.

Lemma Forall2_dedent_last (Q : Element -> Element -> Prop) (ind : str)
      (l l' : list Element) :
  (forall c c' t, Q c c' -> Q c (set_tail c' t)) ->
  Forall2 Q l l' -> Forall2 Q l (dedent_last ind l').
Proof.
  intros H F. induction F as [|c c' l l' Hc F IH]; [constructor|].
  cbn [dedent_last]. destruct l' as [|c2 l'].
  - inversion F; subst. constructor; [|constructor].
    destruct (blank (tail c')); [now apply H | assumption].
  - constructor; assumption.
Qed.

Lemma near_set_tail (c c' : Element) (t : option str) :
  near c c' -> near c (set_tail c' t).
Proof.
  unfold near. rewrite own_set_tail. unfold own. intro H.
  inversion H; subst. constructor; [now apply ws_variant_set_tail | assumption].
Qed.

(** [ET.indent] changes white space only. *)
Lemma indent_children_near (e : Element) :
  forall level,
    Forall2 ws_variant (descendants e) (descendants (indent_children level e)).
Proof.
  induction e as [g a x y cs IH] using Element_forall_ind. intro level.
  cbn [indent_children descendants].
  apply (Forall2_flat_map near); [intros c c' H; exact H|].
  apply Forall2_dedent_last; [apply near_set_tail|].
  induction cs as [|c cs IHcs]; [constructor|].
  inversion IH as [|? ? Hc Hcs]; subst. cbn [map].
  constructor; [|now apply IHcs].
  match goal with |- near c (if blank (tail ?c1) then _ else _) =>
    assert (N : near c c1) end.
  { destruct (children c) as [|c0 cs0] eqn:Ec.
    - apply Forall2_refl_on, ws_variant_refl.
    - unfold near, own. constructor; [|apply Hc].
      destruct c as [g' a' x' y' cs']. cbn [indent_children children] in *.
      unfold ws_variant. cbn [tag attrib text children].
      repeat split. destruct (blank x') eqn:B; [right | now left].
      split; [reflexivity|]. subst cs'. discriminate. }
  destruct (blank (tail _)); [now apply near_set_tail | assumption].
Qed.

Lemma indent_near (root : Element) :
  Forall2 ws_variant (descendants root) (descendants (indent root)).
Proof.
  unfold indent. destruct (children root).
  - apply Forall2_refl_on, ws_variant_refl.
  - apply indent_children_near.
Qed.

Lemma keys_of_variants (l l' : list Element) :
  Forall2 ws_variant l l' ->
  map get_name (filter is_string l') = map get_name (filter is_string l).
Proof.
  intro F. induction F as [|e e' l l' (Ht & Ha & _) _ IH]; [reflexivity|].
  assert (Es : is_string e' = is_string e) by (unfold is_string; now rewrite Ht).
  cbn [filter]. rewrite Es. destruct (is_string e); [|exact IH].
  cbn [map]. rewrite IH. f_equal. unfold get_name. now rewrite Ha.
Qed.

Lemma existing_keys_indent (root : Element) :
  existing_keys (indent root) = existing_keys root.
Proof. apply keys_of_variants, indent_near. Qed.



(** ** The planner of the 2FA script *)

Lemma has_key_names (k : str) (existing : list (option str)) :
  has_key k existing = mem k (names_of existing).
Proof.
  induction existing as [|[x|] l IH]; [reflexivity| |].
  - cbn [has_key existsb names_of flat_map app mem] in *.
    unfold has_key, mem in IH. now rewrite IH.
  - cbn [has_key existsb names_of flat_map app opt_eqb orb] in *. exact IH.
Qed.

Lemma has_key_In (k : str) (existing : list (option str)) :
  has_key k existing = true <-> In (Some k) existing.
Proof.
  unfold has_key. rewrite existsb_exists. split.
  - intros ([x|] & Hin & E); [|discriminate].
    apply str_eqb_eq in E. now subst.
  - intro H. exists (Some k). split; [assumption | apply str_eqb_refl].
Qed.

Lemma new_elements_plan (existing : list (option str)) (tr : dict str) :
  new_elements existing tr
  = map (fun kv => string_elem (fst kv) (snd kv)) (plan (names_of existing) tr).
Proof.
  unfold new_elements, plan. f_equal. apply filter_ext.
  intro kv. now rewrite has_key_names.
Qed.

Lemma issubset_plan (existing : list (option str)) (tr : dict str) :
  issubset (keys tr) existing = true <-> plan (names_of existing) tr = [].
Proof.
  unfold issubset, plan, keys. induction tr as [|[k v] tr IH]; [now split|].
  cbn [map forallb filter fst]. rewrite <- has_key_names.
  destruct (has_key k existing); cbn [negb andb].
  - exact IH.
  - split; discriminate.
Qed.

Lemma descendants_append (root : Element) (es : list Element) :
  descendants (append_all root es) = descendants root ++ flat_map own es.
Proof. destruct root. cbn [append_all descendants]. apply flat_map_app. Qed.

Lemma own_string_elems (l : dict str) :
  flat_map own (map (fun kv => string_elem (fst kv) (snd kv)) l)
  = map (fun kv => string_elem (fst kv) (snd kv)) l.
Proof.
  induction l as [|kv l IH]; [reflexivity|].
  cbn [map flat_map]. now rewrite IH.
Qed.

Lemma filter_string_elems (l : dict str) :
  filter is_string (map (fun kv => string_elem (fst kv) (snd kv)) l)
  = map (fun kv => string_elem (fst kv) (snd kv)) l.
Proof.
  induction l as [|kv l IH]; [reflexivity|].
  cbn [map filter]. now rewrite IH.
Qed.

Lemma findall_append (root : Element) (l : dict str) :
  findall_string (append_all root (map (fun kv => string_elem (fst kv) (snd kv)) l))
  = findall_string root ++ map (fun kv => string_elem (fst kv) (snd kv)) l.
Proof.
  unfold findall_string. rewrite descendants_append, filter_app, own_string_elems.
  f_equal. apply filter_string_elems.
Qed.

Lemma existing_keys_append (root : Element) (l : dict str) :
  existing_keys (append_all root (map (fun kv => string_elem (fst kv) (snd kv)) l))
  = existing_keys root ++ map (fun kv => Some (fst kv)) l.
Proof.
  unfold existing_keys. rewrite findall_append, map_app, map_map. reflexivity.
Qed.

(** What [merged] returns. *)
Lemma merged_cases (tr : dict str) (root : Element) :
  let planned := plan (names_of (existing_keys root)) tr in
  match merged tr root with
  | None => planned = []
  | Some root' =>
      planned <> []
      /\ root' = indent (append_all root
                          (map (fun kv => string_elem (fst kv) (snd kv)) planned))
  end.
Proof.
  cbv zeta. unfold merged.
  destruct (issubset (keys tr) (existing_keys root)) eqn:E.
  - now apply issubset_plan.
  - split; [|now rewrite new_elements_plan].
    intro H. apply issubset_plan in H. congruence.
Qed.

(** The keys of the tree the function writes. *)
Lemma existing_keys_merged (tr : dict str) (root root' : Element) :
  merged tr root = Some root' ->
  existing_keys root'
  = existing_keys root
      ++ map (fun kv => Some (fst kv)) (plan (names_of (existing_keys root)) tr).
Proof.
  intro H. pose proof (merged_cases tr root) as M. cbv zeta in M.
  rewrite H in M. destruct M as [_ ->].
  now rewrite existing_keys_indent, existing_keys_append.
Qed.

Lemma In_names_of (k : str) (existing : list (option str)) :
  In k (names_of existing) <-> In (Some k) existing.
Proof. now rewrite <- mem_In, <- has_key_names, has_key_In. Qed.

Lemma merged_covers (tr : dict str) (root root' : Element) :
  merged tr root = Some root' ->
  issubset (keys tr) (existing_keys root') = true.
Proof.
  intro H. rewrite (existing_keys_merged _ _ _ H).
  unfold issubset. apply forallb_forall. intros k Hk.
  apply has_key_In, in_or_app.
  destruct (has_key k (existing_keys root)) eqn:E.
  - left. now apply has_key_In.
  - right. apply in_map_iff in Hk as ([k' v] & Ek & Hkv). cbn in Ek. subst k'.
    apply (in_map (fun kv => Some (fst kv)) _ (k, v)).
    apply plan_spec. split; [assumption|]. cbn.
    rewrite In_names_of, <- has_key_In. congruence.
Qed.

Section Run.
Variable ET_parse : str -> option Element.
Variable ET_write : Element -> str.

Lemma twofa_run_cases (p : path) (tr : dict str) (d d' : fs) (o : outcome) :
  add_translations_to_file ET_parse ET_write p tr d = (o, d') ->
  (d' = d /\ match o with Added _ => False | _ => True end)
  \/ exists f root root',
       d p = Some f /\ readable f = true /\ writable f = true
       /\ ET_parse (content f) = Some root
       /\ merged tr root = Some root'
       /\ o = Added (length (new_elements (existing_keys root) tr))
       /\ d' = fs_write d p (ET_write root').
Proof.
  unfold add_translations_to_file. intro H.
  destruct (d p) as [f|] eqn:Df; [|injection H as <- <-; now left].
  destruct (readable f) eqn:R; cbn [negb] in H; cbv iota in H;
    [|injection H as <- <-; now left].
  destruct (ET_parse (content f)) as [root|] eqn:P;
    [|injection H as <- <-; now left].
  destruct (merged tr root) as [root'|] eqn:M;
    [|injection H as <- <-; now left].
  destruct (writable f) eqn:W; [|injection H as <- <-; now left].
  injection H as <- <-. right. exists f, root, root'. now repeat split.
Qed.

(** A second run of the 2FA script on the file the first one wrote
    writes nothing, when parsing that file gives back the keys of the
    tree that was written. *)
Lemma twofa_second_run (p : path) (tr : dict str) (d d' : fs) (o : outcome) :
  (forall f root root' t,
      d p = Some f -> ET_parse (content f) = Some root ->
      merged tr root = Some root' ->
      ET_parse (ET_write root') = Some t ->
      existing_keys t = existing_keys root') ->
  add_translations_to_file ET_parse ET_write p tr d = (o, d') ->
  exists o2, add_translations_to_file ET_parse ET_write p tr d' = (o2, d')
             /\ match o with
                | Added _ => o2 = NoOp \/ o2 = Error
                | _ => o2 = o
                end.
Proof.
  intros RT H.
  destruct (twofa_run_cases _ _ _ _ _ H)
    as [[-> Ho] | (f & root & root' & Df & R & W & P & M & -> & ->)].
  - exists o. split; [assumption|]. now destruct o.
  - unfold add_translations_to_file. rewrite (fs_write_same _ _ _ _ Df).
    cbn [readable content writable]. rewrite R. cbn [negb]. cbv iota.
    destruct (ET_parse (ET_write root')) as [t|] eqn:P2.
    + exists NoOp. split; [|now left].
      unfold merged. rewrite (RT _ _ _ _ Df P M P2).
      now rewrite (merged_covers _ _ _ M).
    + exists Error. split; [reflexivity | now right].
Qed.


End Run.

(** ** The children appended to the root *)


Lemma strip_tail_idem (e : Element) (t : option str) :
  strip_tail (set_tail e t) = strip_tail e.
Proof. now destruct e. Qed.


End TwoFAFacts.

(* ================================================================== *)
(** * More facts on searching and splicing *)
(* ================================================================== *)


Lemma starts_with_short (sub x b : str) :
  starts_with sub (x ++ b) = true -> length sub <= length x ->
  starts_with sub x = true.
Proof.
  revert x; induction sub as [|c sub IH]; intros x H L; [reflexivity|].
  destruct x as [|y x]; [cbn in L; lia|].
  cbn [app starts_with] in *. apply andb_true_iff in H as [H1 H2].
  rewrite H1. cbn [andb]. apply IH; [assumption | cbn in L; lia].
Qed.










Lemma not_added_of_match (o o2 : outcome) :
  match o with Added _ => o2 = NoOp | _ => o2 = o end -> forall n, o2 <> Added n.
Proof. destruct o; intros -> m; discriminate. Qed.

(* ================================================================== *)
(** * The loops over the locales *)
(* ================================================================== *)

Module SecurityBatch.
Import Security.


End SecurityBatch.

Module TwoFABatch.
Import TwoFA.

Lemma twofa_unchanged_unless_added (P : str -> option Element) (W : Element -> str)
      (p : path) (tr : dict str) (d d' : fs) (o : outcome) :
  add_translations_to_file P W p tr d = (o, d') ->
  returns_true o = false -> d' = d.
Proof.
  intros H N. destruct (TwoFAFacts.twofa_run_cases _ _ _ _ _ _ _ H)
    as [[-> _] | (f & root & root' & _ & _ & _ & _ & _ & -> & _)];
    [reflexivity | discriminate N].
Qed.
End TwoFABatch.

(* ================================================================== *)
(** * Runs on the sample inputs *)
(* ================================================================== *)

Import Samples.


Lemma fr_second_run :
  Security.add_translations_to_file folders (lit "fr") kv fr_after = Ret (NoOp, fr_after).
Proof. vm_compute. reflexivity. Qed.

Lemma one_line_run :
  TwoFA.add_translations_to_file Plain.parse Plain.write fr_2fa kv one_line_fs
  = (Added 1, one_line_after).
Proof. vm_compute. reflexivity. Qed.



Lemma fr_with_a_run :
  Security.add_translations_to_file folders (lit "fr") akv fr_with_a_fs
  = Ret (Added 1, fr_with_a_after).
Proof. vm_compute. reflexivity. Qed.




(** The files and trees of these runs, spelled out. *)


Lemma one_line_parsed :
  Plain.parse one_line
  = Some (TwoFA.Elem (lit "resources") [] None None
            [TwoFA.string_elem (lit "a") (lit "x")]).
Proof. vm_compute. reflexivity. Qed.

Lemma one_line_written :
  Plain.write one_line_tree
  = Plain.declaration ++ lit "<resources>" ++ [nl]
      ++ entry (lit "a") (lit "x") ++ [nl]
      ++ entry (lit "k") (lit "v") ++ [nl]
      ++ lit "</resources>".
Proof. vm_compute. reflexivity. Qed.


Lemma markup_written :
  Plain.write markup_tree
  = Plain.declaration ++ lit "<resources>" ++ [nl]
      ++ lit "    " ++ open_tag (lit "t") ++ [nl]
      ++ lit "        <b>x</b>" ++ [nl]
      ++ lit "    </string>" ++ [nl]
      ++ entry (lit "k") (lit "v") ++ [nl]
      ++ lit "</resources>".
Proof. vm_compute. reflexivity. Qed.



Lemma no_closing_run :
  Security.add_translations_to_file folders (lit "fr") kv no_closing_fs
  = Ret (NoOp, no_closing_fs).
Proof. vm_compute. reflexivity. Qed.


(* ================================================================== *)
(** * The claims *)
(* ================================================================== *)

(** ** C1 *)




(** ** C2 *)



(** ** C3 *)




(** ** C4 *)




(** ** C5 *)




(** ** C6 *)

(** C6, as stated, fails: on a file without the closing tag that already
    holds the candidate key, the security script reports that all strings
    exist, not that the tag is missing. The input is [no_closing] with the
    table [kv]. *)
Lemma absent_anchor_reported_as_noop :
  ~ (forall (LF : dict str) (lang folder : str) (tr : dict str) (d : fs) (f : file),
        dict_get LF lang = Some folder ->
        d (Security.strings_file folder) = Some f ->
        readable f = true ->
        contains Security.closing (content f) = false ->
        Security.add_translations_to_file LF lang tr d = Ret (AnchorNotFound, d)).
Proof.
  intro H.
  specialize (H folders (lit "fr") (lit "values-fr") kv no_closing_fs
                (mkFile no_closing true true) eq_refl eq_refl eq_refl eq_refl).
  rewrite no_closing_run in H. discriminate H.
Qed.

(** C6, amended. When the anchor is absent from a readable file the text
    scripts return the file system unchanged, and the outcome is the
    missing anchor unless the earlier test finds nothing to add (security:
    no candidate key is missing; WiFi: the banner literal is there), in
    which case it is the no-op. *)
Theorem missing_anchor_leaves_file :
  (forall (LF : dict str) (lang folder : str) (tr : dict str) (d : fs) (f : file),
      dict_get LF lang = Some folder -> folder <> [] ->
      d (Security.strings_file folder) = Some f ->
      readable f = true ->
      contains Security.closing (content f) = false ->
      Security.add_translations_to_file LF lang tr d
      = Ret (match Security.new_strings (content f) tr with
             | [] => NoOp
             | _ :: _ => AnchorNotFound
             end, d))
  /\ (forall (tr : dict (dict str)) (lang folder : str) (d : fs) (f : file),
         d (Wifi.strings_file folder) = Some f ->
         readable f = true ->
         contains Wifi.marker (content f) = false ->
         Wifi.process tr lang folder d
         = Ret (if contains Wifi.banner_key (content f) then NoOp else AnchorNotFound, d)).
Proof.
  split.
  - intros LF lang folder tr d f G Hf Df R C.
    unfold Security.add_translations_to_file.
    destruct folder as [|x folder]; [contradiction|].
    rewrite G, Df, R, C. cbn [negb].
    now destruct (Security.new_strings (content f) tr).
  - intros tr lang folder d f Df R M.
    unfold Wifi.process. rewrite Df, R, M. cbn [negb].
    now destruct (contains Wifi.banner_key (content f)).
Qed.

(** Both text scripts on a file without anchor. *)
Lemma missing_anchor_leaves_file_witness :
  Security.add_translations_to_file folders (lit "fr") kv
    (single_file fr_file fr_no_anchor true)
  = Ret (AnchorNotFound, single_file fr_file fr_no_anchor true)
  /\ Wifi.process wifi_table (lit "fr") (lit "values-fr")
       (single_file wifi_fr_file fr_no_anchor true)
     = Ret (AnchorNotFound, single_file wifi_fr_file fr_no_anchor true).
Proof.
  destruct missing_anchor_leaves_file as (Hs & Hw).
  split.
  - apply (Hs folders (lit "fr") (lit "values-fr") kv
             (single_file fr_file fr_no_anchor true)
             (mkFile fr_no_anchor true true)); try reflexivity. discriminate.
  - apply (Hw wifi_table (lit "fr") (lit "values-fr")
             (single_file wifi_fr_file fr_no_anchor true)
             (mkFile fr_no_anchor true true)); reflexivity.
Defined.

(** ** C7 *)




(** ** C8 *)




(** ** C9 *)



(** ** C10 *)



(* ================================================================== *)
(** * Further properties of the scripts *)
(* ================================================================== *)

Import MoreSamples.

Lemma contains_char (c : ascii) (s : str) : contains [c] s = true <-> In c s.
Proof.
  induction s as [|x s IH]; cbn [contains starts_with In].
  - split; [discriminate | contradiction].
  - rewrite orb_true_iff, andb_true_r, Ascii.eqb_eq, IH.
    split; (intros [H|H]; [left; now symmetry | now right]).
Qed.

Lemma skipn_length_app {A} (a b : list A) : skipn (length a) (a ++ b) = b.
Proof. induction a as [|x a IH]; [reflexivity | exact IH]. Qed.

Lemma firstn_length_app {A} (a b : list A) : firstn (length a) (a ++ b) = a.
Proof. induction a as [|x a IH]; [reflexivity | cbn; now rewrite IH]. Qed.

(** An occurrence that no earlier one overlaps is the first. *)
Lemma find_first_at (sub a b : str) :
  sub <> [] -> contains sub (a ++ removelast sub) = false ->
  find_first sub (a ++ sub ++ b) = Some (length a).
Proof.
  intros Hne. induction a as [|c a IH]; intro H.
  - destruct sub as [|x sub]; [contradiction|].
    cbn [app length find_first].
    change (x :: sub ++ b) with ((x :: sub) ++ b).
    now rewrite starts_with_app.
  - cbn [app contains] in H. apply orb_false_iff in H as [H1 H2].
    cbn [app length find_first].
    destruct (starts_with sub (c :: a ++ sub ++ b)) eqn:S.
    + exfalso.
      rewrite (app_removelast_last c Hne) in S at 2.
      rewrite <- app_assoc in S.
      change (c :: a ++ removelast sub ++ [last sub c] ++ b)
        with ((c :: a) ++ removelast sub ++ [last sub c] ++ b) in S.
      rewrite (app_assoc (c :: a)) in S.
      apply starts_with_short in S.
      * cbn [app] in S. congruence.
      * rewrite (app_removelast_last c Hne) at 1.
        rewrite !length_app. cbn [length]. lia.
    + now rewrite (IH H2).
Qed.

Lemma clamp_index_nat (n len : nat) : n <= len -> clamp_index (Z.of_nat n) len = n.
Proof.
  intro H. unfold clamp_index.
  destruct (Z.ltb_spec (Z.of_nat n) 0); [lia|].
  rewrite Nat2Z.id. lia.
Qed.

Lemma py_find_from_nat (sub s : str) (n k : nat) :
  n <= length s -> find_first sub (skipn n s) = Some k ->
  py_find_from sub s (Z.of_nat n) = Z.of_nat (n + k).
Proof.
  intros L F. unfold py_find_from. rewrite (clamp_index_nat _ _ L), F.
  destruct (Z.ltb_spec (Z.of_nat (length s)) (Z.of_nat n)); [lia | reflexivity].
Qed.


Module WifiPlace.
Import Wifi.

Lemma marker_nonempty : marker <> [].
Proof. discriminate. Qed.

Lemma close_string_nonempty : close_string <> [].
Proof. discriminate. Qed.

(** The end of the marker entry: the index after the first [</string>]
    that follows the first marker. *)
Lemma line_end_pos (pre v tl : str) :
  contains marker (pre ++ removelast marker) = false ->
  contains close_string ((marker ++ v) ++ removelast close_string) = false ->
  (py_find_from close_string (pre ++ marker ++ v ++ close_string ++ tl)
     (py_find marker (pre ++ marker ++ v ++ close_string ++ tl))
   + Z.of_nat (length close_string))%Z
  = Z.of_nat (length (pre ++ marker ++ v ++ close_string)).
Proof.
  intros H1 H2. unfold py_find.
  rewrite (py_find_from_nat marker _ 0 (length pre)).
  - cbn [Nat.add].
    rewrite (py_find_from_nat close_string _ (length pre) (length (marker ++ v))).
    + rewrite <- Nat2Z.inj_add. f_equal. rewrite !length_app. lia.
    + rewrite length_app. lia.
    + rewrite skipn_length_app.
      rewrite (app_assoc marker v).
      apply (find_first_at close_string (marker ++ v) tl close_string_nonempty H2).
  - lia.
  - cbn [skipn]. apply (find_first_at marker pre _ marker_nonempty H1).
Qed.

Lemma reassoc (pre v tl : str) :
  pre ++ marker ++ v ++ close_string ++ tl
  = (pre ++ marker ++ v ++ close_string) ++ tl.
Proof. now rewrite <- !app_assoc. Qed.

(** The marker entry is followed by a line break on its line. *)
Lemma newline_pos_line (pre v rest post : str) :
  contains marker (pre ++ removelast marker) = false ->
  contains close_string ((marker ++ v) ++ removelast close_string) = false ->
  ~ In nl rest ->
  newline_pos (pre ++ marker ++ v ++ close_string ++ rest ++ nl :: post)
  = Z.of_nat (length ((pre ++ marker ++ v ++ close_string) ++ rest)).
Proof.
  intros H1 H2 H3. unfold newline_pos.
  rewrite (line_end_pos pre v _ H1 H2).
  rewrite (py_find_from_nat [nl] _ _ (length rest)).
  - now rewrite <- length_app.
  - rewrite (reassoc pre v (rest ++ nl :: post)), !length_app. lia.
  - rewrite (reassoc pre v (rest ++ nl :: post)), skipn_length_app.
    apply (find_first_at [nl] rest post); [discriminate|].
    cbn [removelast]. rewrite app_nil_r.
    destruct (contains [nl] rest) eqn:C; [|reflexivity].
    apply contains_char in C. contradiction.
Qed.



Lemma process_no_english (tr : dict (dict str)) (lang folder : str) (d d' : fs)
      (o : outcome) :
  dict_get tr (lit "en") = None ->
  process tr lang folder d = Ret (o, d') ->
  d' = d /\ forall n, o <> Added n.
Proof.
  intros E H.
  destruct (WifiRun.wifi_run_cases _ _ _ _ _ _ H)
    as [[-> Ho] | (f & t & b & u & h & _ & _ & _ & _ & _ & S & _)].
  - split; [reflexivity|]. intros n ->. exact Ho.
  - unfold select_trans in S. rewrite E in S. discriminate S.
Qed.

End WifiPlace.

(** X1. The WiFi script puts its block at the end of the line of the marker
    entry. When the first marker of the file is followed by a value [v],
    the first [</string>] after the marker, the rest [rest] of that line
    and a line break, the file written is the old text with the block put
    between [rest] and the line break. *)
Theorem wifi_inserts_after_marker_line :
  forall (tr : dict (dict str)) (lang folder : str) (d : fs) (f : file)
         (t : dict str) (b u h pre v rest post : str),
    d (Wifi.strings_file folder) = Some f ->
    readable f = true -> writable f = true ->
    content f = pre ++ Wifi.marker ++ v ++ close_string ++ rest ++ nl :: post ->
    contains Wifi.banner_key (content f) = false ->
    contains Wifi.marker (pre ++ removelast Wifi.marker) = false ->
    contains close_string ((Wifi.marker ++ v) ++ removelast close_string) = false ->
    ~ In nl rest ->
    Wifi.select_trans tr lang = Ret t ->
    dict_get t (lit "banner") = Some b ->
    dict_get t (lit "button") = Some u ->
    dict_get t (lit "hint") = Some h ->
    Wifi.process tr lang folder d
    = Ret (Added 3,
           fs_write d (Wifi.strings_file folder)
             (pre ++ Wifi.marker ++ v ++ close_string ++ rest
                ++ Wifi.new_strings b u h ++ nl :: post)).
Proof.
  intros tr lang folder d f t b u h pre v rest post Df R W C B H1 H2 H3 S Gb Gu Gh.
  unfold Wifi.process. rewrite Df, R, B. cbn [negb].
  assert (M : contains Wifi.marker (content f) = true)
    by (rewrite C; apply contains_mid).
  rewrite M, S, Gb, Gu, Gh, W. cbn [negb].
  do 3 f_equal. rewrite C, (WifiPlace.newline_pos_line pre v rest post H1 H2 H3).
  unfold slice_to, slice_from.
  assert (E : pre ++ Wifi.marker ++ v ++ close_string ++ rest ++ nl :: post
              = ((pre ++ Wifi.marker ++ v ++ close_string) ++ rest) ++ nl :: post)
    by now rewrite <- !app_assoc.
  rewrite E at 1 2 3 4.
  rewrite clamp_index_nat by (rewrite !length_app; lia).
  rewrite firstn_length_app, skipn_length_app.
  now rewrite <- !app_assoc.
Qed.

(** The file with the marker entry and the hint entry. *)
Lemma wifi_inserts_after_marker_line_witness :
  Wifi.process wifi_table (lit "en") (lit "values-en") wifi_partial_fs
  = Ret (Added 3, wifi_partial_after).
Proof.
  exact (wifi_inserts_after_marker_line wifi_table (lit "en") (lit "values-en")
           wifi_partial_fs (mkFile wifi_partial true true) wifi_en
           (lit "B") (lit "U") (lit "H")
           (lit "<resources>" ++ [nl] ++ lit "    ") (lit "x") []
           (entry Wifi.hint_key (lit "old") ++ [nl] ++ lit "</resources>" ++ [nl])
           eq_refl eq_refl eq_refl eq_refl eq_refl eq_refl eq_refl
           (fun H : In nl [] => H) eq_refl eq_refl eq_refl eq_refl).
Defined.



(** X3. With a table that has no English row the WiFi script never writes.
    The default of [translations.get] is evaluated for every file that
    needs the entries, also when the locale has a row of its own, and
    raises. So every outcome reported is one without insertion, the file
    system is left as it was, and the loop runs to its end only if no
    readable file has the marker without the banner literal. *)
Theorem wifi_writes_nothing_without_english_row :
  forall (tr : dict (dict str)) (lf : dict str) (d d' : fs)
         (os : list (str * outcome)) (fin : bool),
    dict_get tr (lit "en") = None ->
    Wifi.add_translations tr lf d = (os, d', fin) ->
    d' = d
    /\ (forall lang o n, In (lang, o) os -> o <> Added n)
    /\ (fin = true ->
        forall lang folder f,
          In (lang, folder) lf ->
          d (Wifi.strings_file folder) = Some f -> readable f = true ->
          contains Wifi.banner_key (content f) = true
          \/ contains Wifi.marker (content f) = false).
Proof.
  intros tr lf d d' os fin E. revert d' os fin.
  induction lf as [|[lang folder] lf IH]; intros d' os fin; cbn [Wifi.add_translations].
  - intros [= <- <- <-]. split; [reflexivity|]. split; [intros ? ? ? []|].
    intros _ ? ? ? [].
  - destruct (Wifi.process tr lang folder d) as [[o d1]|] eqn:P.
    2: { intros [= <- <- <-]. split; [reflexivity|]. split; [intros ? ? ? []|].
         discriminate. }
    destruct (WifiPlace.process_no_english _ _ _ _ _ _ E P) as [-> No].
    destruct (Wifi.add_translations tr lf d) as [[os1 d2] fin1] eqn:A.
    destruct (IH _ _ _ eq_refl) as (-> & Hos & Hfin).
    intros [= <- <- <-]. split; [reflexivity|]. split.
    + intros l o' n [[= <- <-] | Hin]; [apply No | eapply Hos, Hin].
    + intros -> l fo f [[= <- <-] | Hin] Df R; [|eapply Hfin; eauto].
      unfold Wifi.process, Wifi.select_trans in P. rewrite Df, R, E in P.
      cbn [negb] in P.
      destruct (contains Wifi.banner_key (content f)); [now left|].
      destruct (contains Wifi.marker (content f)); [discriminate P | now right].
Qed.

(** A table with a French row only, on a French file that has the marker. *)
Lemma wifi_writes_nothing_without_english_row_witness :
  dict_get wifi_fr_only (lit "en") = None
  /\ Wifi.add_translations wifi_fr_only [(lit "fr", lit "values-fr")] wifi_fr_fs
     = ([], wifi_fr_fs, false)
  /\ forall lang o n, In (lang, o) (@nil (str * outcome)) -> o <> Added n.
Proof.
  split; [reflexivity|]. split; [reflexivity|].
  exact (proj1 (proj2 (wifi_writes_nothing_without_english_row wifi_fr_only
                         [(lit "fr", lit "values-fr")] wifi_fr_fs wifi_fr_fs [] false
                         eq_refl eq_refl))).
Defined.

Module SecurityPlace.
Import Security SecurityFacts SecurityRun.

(** The closing tag cannot start in a text that does not hold it and end
    in a closing tag that follows: its first character is its only [<]. *)
Lemma find_closing_at (s r : str) :
  contains closing s = false ->
  find_first closing (s ++ closing ++ r) = Some (length s).
Proof.
  induction s as [|c s IH]; intro H.
  - reflexivity.
  - cbn [contains] in H. apply orb_false_iff in H as [H1 H2].
    cbn [app length find_first].
    destruct (starts_with closing (c :: s ++ closing ++ r)) eqn:S.
    + exfalso.
      assert (L : length closing <= length (c :: s)).
      { apply starts_with_spec in S as (r' & S).
        apply (no_overlap closing (c :: s) (tl closing ++ r) r' "<"%char).
        - rewrite <- S. reflexivity.
        - discriminate.
        - apply closing_tail. }
      apply (starts_with_short closing (c :: s) (closing ++ r)) in S; [|exact L].
      congruence.
    + now rewrite (IH H2).
Qed.

(** On a text cut at its closing tags, the replacement changes the
    separator. *)
Lemma replace_join (new : str) (segs : list str) :
  Forall (fun s => contains closing s = false) segs ->
  py_replace closing new (py_join closing segs) = py_join new segs.
Proof.
  induction segs as [|s segs IH]; intro H; [reflexivity|].
  inversion H as [|? ? Hs Hr]; subst.
  destruct segs as [|s2 segs].
  - cbn [py_join]. now apply replace_absent.
  - cbn [py_join] in *.
    rewrite (replace_first closing new _ (length s) closing_nonempty
               (find_closing_at s _ Hs)).
    rewrite firstn_length_app.
    rewrite (app_assoc s closing), <- length_app, skipn_length_app.
    now rewrite (IH Hr).
Qed.

Lemma join_has_sep (sep : str) (s s2 : str) (segs : list str) :
  contains sep (py_join sep (s :: s2 :: segs)) = true.
Proof. cbn [py_join]. apply contains_mid. Qed.

(** Every new line stands in the text that is written. *)
Lemma line_in_result (l c : str) (lines : list str) :
  In l lines -> contains closing c = true ->
  contains l (py_replace closing (translation_block lines ++ closing) c) = true.
Proof.
  intros Hl Hc.
  destruct (find_first closing c) as [n|] eqn:F.
  2: { apply find_first_none in F. congruence. }
  rewrite (replace_first closing _ _ _ closing_nonempty F).
  apply contains_app_r, contains_app_l, contains_app_l.
  unfold translation_block. apply contains_app_l.
  destruct (join_contains [nl] _ _ Hl) as (a & b & ->).
  apply contains_mid.
Qed.

Lemma new_strings_length (c : str) (tr : dict str) :
  length (new_strings c tr) <= length tr.
Proof. unfold new_strings. rewrite length_map. apply filter_length_le. Qed.

End SecurityPlace.

(** X4. The security script replaces every occurrence of the closing tag.
    On a file cut at its closing tags into pieces that do not hold the
    tag, with at least one tag, the file written is the pieces joined by
    the block followed by the closing tag: the block is inserted once
    before each occurrence. *)
Theorem security_inserts_before_every_closing_tag :
  forall (LF : dict str) (lang folder : str) (tr : dict str) (d : fs) (f : file)
         (segs : list str),
    dict_get LF lang = Some folder -> folder <> [] ->
    d (Security.strings_file folder) = Some f ->
    readable f = true -> writable f = true ->
    content f = py_join Security.closing segs ->
    Forall (fun s => contains Security.closing s = false) segs ->
    2 <= length segs ->
    Security.new_strings (content f) tr <> [] ->
    Security.add_translations_to_file LF lang tr d
    = Ret (Added (length (Security.new_strings (content f) tr)),
           fs_write d (Security.strings_file folder)
             (py_join
                (Security.translation_block (Security.new_strings (content f) tr)
                   ++ Security.closing)
                segs)).
Proof.
  intros LF lang folder tr d f segs G Hf Df R W C Hs L N.
  unfold Security.add_translations_to_file.
  destruct folder as [|x folder]; [contradiction|].
  rewrite G, Df, R. cbn [negb].
  destruct (Security.new_strings (content f) tr) as [|l ls] eqn:E; [contradiction|].
  assert (A : contains Security.closing (content f) = true).
  { rewrite C. destruct segs as [|s [|s2 segs]]; cbn [length] in L; try lia.
    apply SecurityPlace.join_has_sep. }
  rewrite A, W. do 3 f_equal.
  rewrite C at 1. now apply SecurityPlace.replace_join.
Qed.

(** A file with the closing tag in a line of text and at its end. *)
Lemma security_inserts_before_every_closing_tag_witness :
  Security.add_translations_to_file folders (lit "fr") kv two_closings_fs
  = Ret (Added 1, fs_write two_closings_fs fr_file two_closings_out).
Proof.
  apply (security_inserts_before_every_closing_tag folders (lit "fr") (lit "values-fr")
           kv two_closings_fs
           (mkFile (py_join Security.closing two_closings) true true) two_closings).
  - reflexivity.
  - discriminate.
  - reflexivity.
  - reflexivity.
  - reflexivity.
  - reflexivity.
  - repeat constructor.
  - cbn [two_closings length]. lia.
  - vm_compute. discriminate.
Defined.

(** X5. Every key the regular expression of the security script extracts
    is non-empty and holds no double quote: an entry with an empty name
    gives no key. *)
Theorem security_keys_are_nonempty_and_quote_free :
  forall (c k : str),
    In k (Security.existing_keys c) -> k <> [] /\ ~ In dq k.
Proof.
  intros c k. unfold Security.existing_keys, Security.findall.
  generalize 0 as skip.
  induction c as [|x c IH]; intros skip; cbn [Security.findall_go]; [contradiction|].
  destruct skip as [|n]; [|apply IH].
  destruct (Security.match_here (x :: c)) as [[k' len]|] eqn:M; [|apply IH].
  intros [<- | H]; [|eapply IH, H].
  apply SecurityFacts.match_here_spec in M as (_ & Hne & Hq & _). now split.
Qed.

(** The key of the one-line file. *)
Lemma security_keys_are_nonempty_and_quote_free_witness :
  In (lit "a") (Security.existing_keys one_line)
  /\ lit "a" <> [] /\ ~ In dq (lit "a").
Proof.
  assert (H : In (lit "a") (Security.existing_keys one_line)) by (now left).
  split; [exact H|].
  exact (security_keys_are_nonempty_and_quote_free one_line (lit "a") H).
Defined.

(** X6. After a run of the security script that adds entries, every plain
    key that was found in the file is found in the file written, every
    plain candidate key is found in it, and the line of every candidate
    whose key was not found stands in it, with the value as the table
    gives it (the script escapes nothing). *)
Theorem security_keys_only_grow :
  forall (LF : dict str) (lang : str) (tr : dict str) (d d' : fs) (n : nat),
    Security.add_translations_to_file LF lang tr d = Ret (Added n, d') ->
    exists folder f f',
      dict_get LF lang = Some folder
      /\ d (Security.strings_file folder) = Some f
      /\ d' (Security.strings_file folder) = Some f'
      /\ (forall k, key_ok k = true -> In k (Security.existing_keys (content f)) ->
                    In k (Security.existing_keys (content f')))
      /\ (forall k, key_ok k = true -> In k (keys tr) ->
                    In k (Security.existing_keys (content f')))
      /\ (forall k v, In (k, v) tr -> ~ In k (Security.existing_keys (content f)) ->
                      contains (Security.string_line k v) (content f') = true).
Proof.
  intros LF lang tr d d' n H.
  destruct (SecurityRun.security_run_cases _ _ _ _ _ _ H)
    as [[_ []] | (folder & f & G & _ & Df & _ & _ & C & _ & _ & ->)].
  eexists folder, f, _. split; [exact G|]. split; [exact Df|].
  split; [apply (fs_write_same _ _ _ _ Df)|]. cbn [content].
  split; [|split].
  - intros k Hk Hin. apply SecurityFacts.findall_complete; [exact Hk|].
    apply SecurityRun.replace_keeps_entry; [exact Hk|].
    now apply SecurityFacts.findall_sound.
  - intros k Hk Hin. now apply SecurityRun.keys_found_after.
  - intros k v Hin Hn. apply SecurityPlace.line_in_result; [|exact C].
    rewrite SecurityRun.new_strings_plan.
    apply (in_map (fun kv => Security.string_line (fst kv) (snd kv)) _ (k, v)).
    apply plan_spec. now split.
Qed.

(** A file that holds the key [a], and a table with [a] and [k]. *)
Lemma security_keys_only_grow_witness :
  exists folder f f',
    dict_get folders (lit "fr") = Some folder
    /\ fr_with_a_fs (Security.strings_file folder) = Some f
    /\ fr_with_a_after (Security.strings_file folder) = Some f'
    /\ (forall k, key_ok k = true -> In k (Security.existing_keys (content f)) ->
                  In k (Security.existing_keys (content f')))
    /\ (forall k, key_ok k = true -> In k (keys akv) ->
                  In k (Security.existing_keys (content f')))
    /\ (forall k v, In (k, v) akv -> ~ In k (Security.existing_keys (content f)) ->
                    contains (Security.string_line k v) (content f') = true).
Proof.
  exact (security_keys_only_grow folders (lit "fr") akv fr_with_a_fs fr_with_a_after 1
           fr_with_a_run).
Defined.

(** X7. The loop of the security script never calls the function for the
    locale [de], whatever its row holds: the locales that get an outcome
    are an initial part of the locales of the table other than [de], in
    the order of the table, and all of them when the loop runs to its
    end. *)
Theorem security_never_processes_de :
  forall (LF : dict str) (table : dict (dict str)) (d d' : fs)
         (os : list (str * outcome)) (fin : bool),
    Security.main_loop LF table d = (os, d', fin) ->
    ~ In (lit "de") (map fst os)
    /\ exists rest,
         filter (fun l => negb (str_eqb l (lit "de"))) (keys table) = map fst os ++ rest
         /\ (fin = true -> rest = []).
Proof.
  intros LF table.
  induction table as [|[lang tr] table IH]; intros d d' os fin;
    cbn [Security.main_loop].
  - intros [= <- <- <-]. split; [intros []|]. now exists [].
  - cbn [keys map fst filter].
    destruct (str_eqb lang (lit "de")) eqn:E; cbn [negb]; [apply IH|].
    destruct (Security.add_translations_to_file LF lang tr d) as [[o d1]|].
    2: { intros [= <- <- <-]. split; [intros []|].
         eexists. split; [reflexivity | discriminate]. }
    destruct (Security.main_loop LF table d1) as [[os1 d2] fin1] eqn:M.
    destruct (IH _ _ _ _ M) as (N & rest & K1 & K2).
    intros [= <- <- <-]. cbn [map fst]. split.
    + intros [H | H]; [|now apply N].
      subst lang. now rewrite str_eqb_refl in E.
    + exists rest. split; [|exact K2].
      cbn [app]. f_equal. exact K1.
Qed.

Lemma de_and_fr_run :
  Security.main_loop folders de_and_fr fr_alone = ([(lit "fr", Added 1)], fr_after, true).
Proof. vm_compute. reflexivity. Qed.

(** A table with a row for [de] and a row for [fr]. *)
Lemma security_never_processes_de_witness :
  ~ In (lit "de") (map fst [(lit "fr", Added 1)])
  /\ exists rest,
       filter (fun l => negb (str_eqb l (lit "de"))) (keys de_and_fr)
       = map fst [(lit "fr", Added 1)] ++ rest
       /\ (true = true -> rest = []).
Proof.
  exact (security_never_processes_de folders de_and_fr fr_alone fr_after
           [(lit "fr", Added 1)] true de_and_fr_run).
Defined.

Lemma ends_with_char_app (c : ascii) (a b : str) :
  b <> [] -> ends_with_char c (a ++ b) = ends_with_char c b.
Proof.
  intro H. unfold ends_with_char. rewrite rev_app_distr.
  destruct (rev b) as [|x r] eqn:E; [|reflexivity].
  apply (f_equal (@rev ascii)) in E. rewrite rev_involutive in E. contradiction.
Qed.

Module TwoFAPaths.
Import TwoFA.

Lemma nt_append_base (b : str) : nt_append BASE_DIR b = BASE_DIR ++ "\"%char :: b.
Proof. reflexivity. Qed.

Lemma folder_name_end (c : ascii) (lang : str) :
  (c = "\"%char \/ c = "/"%char) -> ends_with_char c lang = false ->
  ends_with_char c (folder_name lang) = false.
Proof.
  intros Hc H. unfold folder_name. destruct (str_eqb lang (lit "en")).
  - destruct Hc as [-> | ->]; reflexivity.
  - destruct lang as [|x lang].
    + destruct Hc as [-> | ->]; reflexivity.
    + rewrite ends_with_char_app by discriminate. exact H.
Qed.

Lemma folder_name_nonempty (lang : str) : folder_name lang <> [].
Proof. unfold folder_name. destruct (str_eqb lang (lit "en")); discriminate. Qed.

(** The path of a plain code: the base, the folder and the file name,
    each after a backslash. *)
Lemma file_path_plain (lang : str) :
  plain_code lang = true ->
  file_path lang
  = BASE_DIR ++ "\"%char :: folder_name lang ++ "\"%char :: lit "strings.xml".
Proof.
  unfold plain_code. intro H. apply negb_true_iff, orb_false_iff in H as [H1 H2].
  unfold file_path. rewrite nt_append_base. unfold nt_append.
  assert (N : "\"%char :: folder_name lang <> []) by discriminate.
  rewrite !(ends_with_char_app _ BASE_DIR _ N).
  change ("\"%char :: folder_name lang) with (["\"%char] ++ folder_name lang).
  rewrite !(ends_with_char_app _ ["\"%char] _ (folder_name_nonempty lang)).
  rewrite (folder_name_end "\"%char lang (or_introl eq_refl) H1).
  rewrite (folder_name_end "/"%char lang (or_intror eq_refl) H2).
  cbn [orb]. rewrite <- app_assoc. reflexivity.
Qed.

Lemma folder_name_inj (a b : str) : folder_name a = folder_name b -> a = b.
Proof.
  unfold folder_name.
  destruct (str_eqb a (lit "en")) eqn:Ea, (str_eqb b (lit "en")) eqn:Eb; intro H.
  - apply str_eqb_eq in Ea, Eb. congruence.
  - change (lit "values" ++ [] = lit "values" ++ "-"%char :: b) in H.
    apply app_inv_head in H. discriminate H.
  - change (lit "values" ++ "-"%char :: a = lit "values" ++ []) in H.
    apply app_inv_head in H. discriminate H.
  - now apply app_inv_head in H.
Qed.

Lemma file_path_inj (a b : str) :
  plain_code a = true -> plain_code b = true ->
  file_path a = file_path b -> a = b.
Proof.
  intros Ha Hb. rewrite (file_path_plain a Ha), (file_path_plain b Hb). intro H.
  apply app_inv_head in H. injection H as H.
  apply app_inv_tail in H. now apply folder_name_inj.
Qed.


Section Run.
Variable ET_parse : str -> option Element.
Variable ET_write : Element -> str.

(** The call reads and writes the file at its path only. *)
Lemma twofa_local (p : path) (tr : dict str) (d1 d2 : fs) :
  d1 p = d2 p ->
  fst (add_translations_to_file ET_parse ET_write p tr d1)
  = fst (add_translations_to_file ET_parse ET_write p tr d2)
  /\ snd (add_translations_to_file ET_parse ET_write p tr d1) p
     = snd (add_translations_to_file ET_parse ET_write p tr d2) p.
Proof.
  intro E. unfold add_translations_to_file. rewrite E.
  assert (K : fst (Error, d1) = fst (Error, d2)
              /\ snd (Error, d1) p = snd (Error, d2) p) by (now split).
  assert (K' : fst (NoOp, d1) = fst (NoOp, d2)
               /\ snd (NoOp, d1) p = snd (NoOp, d2) p) by (now split).
  destruct (d2 p) as [f|] eqn:D; [|exact K].
  destruct (negb (readable f)); [exact K|].
  destruct (ET_parse (content f)) as [root|]; [|exact K].
  destruct (merged tr root) as [root'|]; [|exact K'].
  destruct (writable f); [|exact K].
  cbn [fst snd]. split; [reflexivity|].
  unfold fs_write. rewrite str_eqb_refl, E. try rewrite D. reflexivity.
Qed.

Lemma twofa_frame (p q : path) (tr : dict str) (d : fs) :
  q <> p -> snd (add_translations_to_file ET_parse ET_write p tr d) q = d q.
Proof.
  intro N.
  destruct (add_translations_to_file ET_parse ET_write p tr d) as [o d'] eqn:A.
  destruct (TwoFAFacts.twofa_run_cases _ _ _ _ _ _ _ A)
    as [[-> _] | (f & root & root' & _ & _ & _ & _ & _ & _ & ->)];
    [reflexivity | now apply fs_write_other].
Qed.

Lemma twofa_missing (p : path) (tr : dict str) (d : fs) :
  exists_file d p = false ->
  snd (add_translations_to_file ET_parse ET_write p tr d) p = d p.
Proof.
  unfold exists_file, add_translations_to_file.
  destruct (d p) eqn:D; [discriminate|]. intros _. cbn [snd]. exact D.
Qed.

Lemma twofa_loop_frame (table : dict (dict str)) (d : fs) (q : path) :
  (forall lang, In lang (keys table) -> q <> file_path lang) ->
  snd (main_loop ET_parse ET_write table d) q = d q.
Proof.
  revert d. induction table as [|[lang tr] table IH]; intros d H; [reflexivity|].
  cbn [main_loop].
  assert (Hq : q <> file_path lang) by (apply H; now left).
  assert (Hr : forall l, In l (keys table) -> q <> file_path l)
    by (intros l Hl; apply H; now right).
  destruct (exists_file d (file_path lang)).
  - pose proof (twofa_frame (file_path lang) q tr d Hq) as F.
    destruct (add_translations_to_file ET_parse ET_write (file_path lang) tr d)
      as [o d1].
    specialize (IH d1 Hr).
    destruct (main_loop ET_parse ET_write table d1) as [os d2].
    cbn [snd] in *. congruence.
  - specialize (IH d Hr).
    destruct (main_loop ET_parse ET_write table d) as [os d2]. exact IH.
Qed.

(** The loop started in a state that agrees with [d0] on the files of
    the table. *)
Lemma twofa_loop_local (table : dict (dict str)) (d0 d : fs) :
  NoDup (map file_path (keys table)) ->
  (forall lang, In lang (keys table) -> d (file_path lang) = d0 (file_path lang)) ->
  fst (main_loop ET_parse ET_write table d)
  = map (twofa_alone ET_parse ET_write d0) table
  /\ forall lang tr,
       In (lang, tr) table ->
       snd (main_loop ET_parse ET_write table d) (file_path lang)
       = snd (add_translations_to_file ET_parse ET_write (file_path lang) tr d0)
           (file_path lang).
Proof.
  revert d. induction table as [|[lang tr] table IH]; intros d ND H.
  - split; [reflexivity | intros ? ? []].
  - cbn [keys map fst] in ND. inversion ND as [|? ? Hnot ND']; subst.
    assert (E : d (file_path lang) = d0 (file_path lang)) by (apply H; now left).
    assert (X : exists_file d (file_path lang) = exists_file d0 (file_path lang))
      by (unfold exists_file; now rewrite E).
    destruct (twofa_local (file_path lang) tr d d0 E) as [L1 L2].
    cbn [main_loop map]. unfold twofa_alone at 1. cbn [fst snd]. rewrite X.
    assert (Hother : forall l, In l (keys table) -> file_path l <> file_path lang).
    { intros l Hl Heq. apply Hnot. rewrite <- Heq.
      now apply (in_map file_path). }
    destruct (exists_file d0 (file_path lang)) eqn:Ex.
    + destruct (add_translations_to_file ET_parse ET_write (file_path lang) tr d)
        as [o d1] eqn:A.
      assert (H1 : forall l, In l (keys table) -> d1 (file_path l) = d0 (file_path l)).
      { intros l Hl.
        pose proof (twofa_frame (file_path lang) (file_path l) tr d (Hother l Hl)) as F.
        rewrite A in F. cbn [snd] in F. rewrite F. apply H. now right. }
      destruct (IH d1 ND' H1) as [I1 I2].
      pose proof (twofa_loop_frame table d1 (file_path lang)) as F.
      destruct (main_loop ET_parse ET_write table d1) as [os d2].
      cbn [fst snd] in *. split; [now rewrite I1, <- L1|].
      intros l t [[= <- <-] | Hin]; [|now apply I2].
      rewrite F, <- L2; [reflexivity|].
      intros l Hl Heq. now apply (Hother l Hl).
    + assert (H1 : forall l, In l (keys table) -> d (file_path l) = d0 (file_path l))
        by (intros l Hl; apply H; now right).
      destruct (IH d ND' H1) as [I1 I2].
      pose proof (twofa_loop_frame table d (file_path lang)) as F.
      destruct (main_loop ET_parse ET_write table d) as [os d2].
      cbn [fst snd] in *. split; [now rewrite I1|].
      intros l t [[= <- <-] | Hin]; [|now apply I2].
      rewrite F, (twofa_missing _ tr _ Ex); [exact E|].
      intros l Hl Heq. now apply (Hother l Hl).
Qed.


End Run.
End TwoFAPaths.

Module Frames.

Lemma security_frame (LF : dict str) (lang : str) (tr : dict str) (d d' : fs)
      (o : outcome) (q : path) :
  Security.add_translations_to_file LF lang tr d = Ret (o, d') ->
  (forall folder, dict_get LF lang = Some folder -> q <> Security.strings_file folder) ->
  d' q = d q.
Proof.
  intros A H.
  destruct (SecurityRun.security_run_cases _ _ _ _ _ _ A)
    as [[-> _] | (folder & f & G & _ & _ & _ & _ & _ & _ & _ & ->)];
    [reflexivity|].
  apply fs_write_other, H, G.
Qed.

Lemma security_loop_frame (LF : dict str) (table : dict (dict str)) (d d' : fs)
      (os : list (str * outcome)) (fin : bool) (q : path) :
  Security.main_loop LF table d = (os, d', fin) ->
  (forall lang folder, In lang (keys table) -> dict_get LF lang = Some folder ->
                       q <> Security.strings_file folder) ->
  d' q = d q.
Proof.
  revert d d' os fin.
  induction table as [|[lang tr] table IH]; intros d d' os fin;
    cbn [Security.main_loop].
  - now intros [= <- <- <-] _.
  - intros M H.
    assert (Hr : forall l folder, In l (keys table) -> dict_get LF l = Some folder ->
                                  q <> Security.strings_file folder)
      by (intros l fo Hl; apply H; now right).
    destruct (str_eqb lang (lit "de")); [eapply IH; eauto|].
    destruct (Security.add_translations_to_file LF lang tr d) as [[o d1]|] eqn:A.
    2: { now injection M as <- <- <-. }
    destruct (Security.main_loop LF table d1) as [[os1 d2] fin1] eqn:M1.
    injection M as <- <- <-.
    rewrite (IH _ _ _ _ M1 Hr).
    apply (security_frame _ _ _ _ _ _ _ A). intros fo G. apply (H lang fo); [now left | exact G].
Qed.

Lemma wifi_frame (tr : dict (dict str)) (lang folder : str) (d d' : fs)
      (o : outcome) (q : path) :
  Wifi.process tr lang folder d = Ret (o, d') ->
  q <> Wifi.strings_file folder -> d' q = d q.
Proof.
  intros A H.
  destruct (WifiRun.wifi_run_cases _ _ _ _ _ _ A)
    as [[-> _] | (f & t & b & u & h & _ & _ & _ & _ & _ & _ & _ & _ & _ & _ & ->)];
    [reflexivity | now apply fs_write_other].
Qed.

Lemma wifi_loop_frame (tr : dict (dict str)) (lf : dict str) (d d' : fs)
      (os : list (str * outcome)) (fin : bool) (q : path) :
  Wifi.add_translations tr lf d = (os, d', fin) ->
  (forall lang folder, In (lang, folder) lf -> q <> Wifi.strings_file folder) ->
  d' q = d q.
Proof.
  revert d d' os fin.
  induction lf as [|[lang folder] lf IH]; intros d d' os fin;
    cbn [Wifi.add_translations].
  - now intros [= <- <- <-] _.
  - intros M H.
    destruct (Wifi.process tr lang folder d) as [[o d1]|] eqn:A.
    2: { now injection M as <- <- <-. }
    destruct (Wifi.add_translations tr lf d1) as [[os1 d2] fin1] eqn:M1.
    injection M as <- <- <-.
    rewrite (IH _ _ _ _ M1) by (intros l fo Hl; apply (H l fo); now right).
    apply (wifi_frame _ _ _ _ _ _ _ A). apply (H lang folder). now left.
Qed.

End Frames.

(** X8. Each of the three loops leaves alone every path that is not the
    strings file of one of the locales it goes through: the file system
    after the loop gives such a path what it gave before. *)
Theorem loops_touch_only_locale_files :
  (forall (ET_parse : str -> option TwoFA.Element) (ET_write : TwoFA.Element -> str)
          (table : dict (dict str)) (d : fs) (q : path),
      (forall lang, In lang (keys table) -> q <> TwoFA.file_path lang) ->
      snd (TwoFA.main_loop ET_parse ET_write table d) q = d q)
  /\ (forall (LF : dict str) (table : dict (dict str)) (d d' : fs)
             (os : list (str * outcome)) (fin : bool) (q : path),
         Security.main_loop LF table d = (os, d', fin) ->
         (forall lang folder, In lang (keys table) -> dict_get LF lang = Some folder ->
                              q <> Security.strings_file folder) ->
         d' q = d q)
  /\ (forall (tr : dict (dict str)) (lf : dict str) (d d' : fs)
             (os : list (str * outcome)) (fin : bool) (q : path),
         Wifi.add_translations tr lf d = (os, d', fin) ->
         (forall lang folder, In (lang, folder) lf -> q <> Wifi.strings_file folder) ->
         d' q = d q).
Proof.
  split; [|split].
  - intros P W table d q. apply TwoFAPaths.twofa_loop_frame.
  - intros LF table d d' os fin q. apply Frames.security_loop_frame.
  - intros tr lf d d' os fin q. apply Frames.wifi_loop_frame.
Qed.

Lemma wifi_en_loop_run :
  Wifi.add_translations wifi_table [(lit "en", lit "values-en")] wifi_partial_fs
  = ([(lit "en", Added 3)], wifi_partial_after, true).
Proof. vm_compute. reflexivity. Qed.

(** Each loop on one locale, seen from the file of another. *)
Lemma loops_touch_only_locale_files_witness :
  snd (TwoFA.main_loop Plain.parse Plain.write [(lit "fr", kv)] fr_es_2fa) es_2fa
  = fr_es_2fa es_2fa
  /\ fr_after es_file = fr_alone es_file
  /\ wifi_partial_after wifi_fr_file = wifi_partial_fs wifi_fr_file.
Proof.
  destruct loops_touch_only_locale_files as (T & S & W).
  split; [|split].
  - apply T. intros lang [<- | []]. apply str_eqb_neq. reflexivity.
  - apply (S folders de_and_fr fr_alone fr_after _ _ es_file de_and_fr_run).
    intros lang folder [<- | [<- | []]] G; [discriminate G|].
    injection G as <-. apply str_eqb_neq. reflexivity.
  - apply (W wifi_table _ wifi_partial_fs wifi_partial_after _ _ wifi_fr_file
             wifi_en_loop_run).
    intros lang folder [[= <- <-] | []]. apply str_eqb_neq. reflexivity.
Defined.

(** X9. When the locales of the table of the 2FA script have distinct
    files, the loop reports for each locale what processing that locale
    alone on the initial file system reports, and leaves the file of the
    locale as that run alone leaves it: the outcome of a locale does not
    depend on the rows before it. *)
Theorem twofa_loop_runs_locales_independently :
  forall (ET_parse : str -> option TwoFA.Element) (ET_write : TwoFA.Element -> str)
         (table : dict (dict str)) (d : fs),
    NoDup (map TwoFA.file_path (keys table)) ->
    fst (TwoFA.main_loop ET_parse ET_write table d)
    = map (twofa_alone ET_parse ET_write d) table
    /\ forall lang tr,
         In (lang, tr) table ->
         snd (TwoFA.main_loop ET_parse ET_write table d) (TwoFA.file_path lang)
         = snd (TwoFA.add_translations_to_file ET_parse ET_write
                  (TwoFA.file_path lang) tr d) (TwoFA.file_path lang).
Proof.
  intros P W table d ND.
  apply (TwoFAPaths.twofa_loop_local P W table d d ND). reflexivity.
Qed.

Lemma three_locales_paths : NoDup (map TwoFA.file_path (keys three_locales)).
Proof.
  apply (Injective_map_NoDup_in).
  - intros a b Ha Hb. apply TwoFAPaths.file_path_inj.
    + cbn in Ha. repeat (destruct Ha as [<- | Ha]; [reflexivity|]). contradiction.
    + cbn in Hb. repeat (destruct Hb as [<- | Hb]; [reflexivity|]). contradiction.
  - cbn [three_locales keys map fst].
    repeat constructor; cbn [In]; intro H;
      repeat (destruct H as [H | H]; [discriminate H|]); exact H.
Qed.

(** Three locales: one file gets an entry, one has the key, one is missing. *)
Lemma twofa_loop_runs_locales_independently_witness :
  fst (TwoFA.main_loop Plain.parse Plain.write three_locales fr_es_2fa)
  = [(lit "fr", Added 1); (lit "es", NoOp); (lit "it", NotFound)].
Proof.
  destruct (twofa_loop_runs_locales_independently Plain.parse Plain.write
              three_locales fr_es_2fa three_locales_paths) as [E _].
  rewrite E. vm_compute. reflexivity.
Defined.




(** X12. A count that [add_translations_to_file] reports, in the security
    and in the 2FA script, is at least 1 and at most the number of
    candidate entries; in the 2FA script the tree written holds that many
    string elements more than the tree parsed. *)
Theorem added_count_is_positive_and_bounded :
  (forall (LF : dict str) (lang : str) (tr : dict str) (d d' : fs) (n : nat),
      Security.add_translations_to_file LF lang tr d = Ret (Added n, d') ->
      1 <= n <= length tr)
  /\ (forall (ET_parse : str -> option TwoFA.Element) (ET_write : TwoFA.Element -> str)
             (p : path) (tr : dict str) (d d' : fs) (n : nat),
         TwoFA.add_translations_to_file ET_parse ET_write p tr d = (Added n, d') ->
         1 <= n <= length tr
         /\ exists f root root',
              d p = Some f /\ ET_parse (content f) = Some root
              /\ d' = fs_write d p (ET_write root')
              /\ length (TwoFA.findall_string root')
                 = length (TwoFA.findall_string root) + n).
Proof.
  split.
  - intros LF lang tr d d' n H.
    destruct (SecurityRun.security_run_cases _ _ _ _ _ _ H)
      as [[_ []] | (folder & f & _ & _ & _ & _ & _ & _ & N & E & _)].
    injection E as ->. split; [|apply SecurityPlace.new_strings_length].
    destruct (Security.new_strings (content f) tr); [contradiction | cbn; lia].
  - intros P W p tr d d' n H.
    destruct (TwoFAFacts.twofa_run_cases _ _ _ _ _ _ _ H)
      as [[_ []] | (f & root & root' & Df & _ & _ & Pr & M & E & ->)].
    injection E as ->. rewrite TwoFAFacts.new_elements_plan, length_map.
    pose proof (TwoFAFacts.merged_cases tr root) as MC. cbv zeta in MC.
    rewrite M in MC. destruct MC as [N _]. split.
    + split.
      * destruct (plan _ tr); [contradiction | cbn; lia].
      * unfold plan. apply filter_length_le.
    + exists f, root, root'. split; [exact Df|]. split; [exact Pr|].
      split; [reflexivity|].
      pose proof (f_equal (@length _) (TwoFAFacts.existing_keys_merged _ _ _ M)) as L.
      unfold TwoFA.existing_keys in L at 1 2.
      now rewrite length_app, !length_map in L.
Qed.

(** One entry added by the security and by the 2FA script. *)
Lemma added_count_is_positive_and_bounded_witness :
  1 <= 1 <= length akv /\ 1 <= 1 <= length kv.
Proof.
  destruct added_count_is_positive_and_bounded as [S T].
  split.
  - exact (S folders (lit "fr") akv fr_with_a_fs fr_with_a_after 1 fr_with_a_run).
  - exact (proj1 (T Plain.parse Plain.write fr_2fa kv one_line_fs one_line_after 1
                    one_line_run)).
Defined.

Lemma replace_go_chars (old new : str) (x : ascii) (s : str) (k : nat) :
  In x (replace_go old new k s) -> In x new \/ In x s.
Proof.
  revert k; induction s as [|c s IH]; intros k; cbn [replace_go]; [contradiction|].
  destruct k as [|k].
  - destruct (starts_with old (c :: s)).
    + intro H. apply in_app_or in H as [H | H]; [now left|].
      destruct (IH _ H) as [H1 | H1]; [now left | right; now right].
    + intros [<- | H]; [right; now left|].
      destruct (IH _ H) as [H1 | H1]; [now left | right; now right].
  - intro H. destruct (IH _ H) as [H1 | H1]; [now left | right; now right].
Qed.

Lemma replace_chars (old new s : str) (x : ascii) :
  ~ In x new -> ~ In x s -> ~ In x (py_replace old new s).
Proof.
  intros H1 H2 H. destruct (replace_go_chars old new x s 0 H); contradiction.
Qed.

Lemma join_chars (sep : str) (x : ascii) (parts : list str) :
  ~ In x sep -> (forall p, In p parts -> ~ In x p) -> ~ In x (py_join sep parts).
Proof.
  intros Hs. induction parts as [|p parts IH]; intro H; [intros []|].
  destruct parts as [|p2 parts]; [apply H; now left|].
  cbn [py_join]. intro Hin.
  apply in_app_or in Hin as [Hin | Hin]; [now apply (H p (or_introl eq_refl))|].
  apply in_app_or in Hin as [Hin | Hin]; [contradiction|].
  apply IH in Hin; [exact Hin|]. intros q Hq. apply H. now right.
Qed.

Lemma in_firstn {A} (x : A) (n : nat) (l : list A) : In x (firstn n l) -> In x l.
Proof. intro H. rewrite <- (firstn_skipn n l). apply in_or_app. now left. Qed.

Lemma in_skipn {A} (x : A) (n : nat) (l : list A) : In x (skipn n l) -> In x l.
Proof. intro H. rewrite <- (firstn_skipn n l). apply in_or_app. now right. Qed.

Module TextMode.

Lemma single_hit (c : ascii) (new s : str) :
  py_replace [c] new (c :: s) = new ++ py_replace [c] new s.
Proof.
  rewrite replace_hit; [reflexivity | discriminate |].
  cbn [starts_with]. now rewrite Ascii.eqb_refl.
Qed.

Lemma single_miss (c x : ascii) (new s : str) :
  x <> c -> py_replace [c] new (x :: s) = x :: py_replace [c] new s.
Proof.
  intro H. apply replace_miss. cbn [starts_with].
  destruct (Ascii.eqb c x) eqn:E; [|reflexivity].
  apply Ascii.eqb_eq in E. congruence.
Qed.

(** The text that is read holds no carriage return. *)
Lemma read_text_no_cr (b : str) : ~ In cr (read_text b).
Proof.
  unfold read_text. generalize (py_replace [cr; nl] [nl] b). intro s.
  induction s as [|x s IH]; [intros []|].
  destruct (Ascii.eqb_spec x cr) as [-> | N].
  - rewrite single_hit. intros [H | H]; [discriminate H | now apply IH].
  - rewrite single_miss by exact N. intros [H | H]; [congruence | now apply IH].
Qed.

Lemma read_text_plain (b : str) : ~ In cr b -> read_text b = b.
Proof.
  intro H. unfold read_text.
  assert (C : contains [cr] b = false).
  { destruct (contains [cr] b) eqn:E; [|reflexivity].
    apply contains_char in E. contradiction. }
  assert (C2 : contains [cr; nl] b = false).
  { destruct (contains [cr; nl] b) eqn:E; [|reflexivity].
    apply contains_spec in E as (a & r & ->). exfalso. apply H.
    apply in_or_app. right. now left. }
  now rewrite (replace_absent _ _ _ C2), (replace_absent _ _ _ C).
Qed.

Lemma write_text_posix (t : str) : write_text [nl] t = t.
Proof.
  unfold write_text. induction t as [|x t IH]; [reflexivity|].
  destruct (Ascii.eqb_spec x nl) as [-> | N].
  - rewrite single_hit. cbn [app]. now rewrite IH.
  - rewrite single_miss by exact N. now rewrite IH.
Qed.

(** Reading undoes the translation of line feeds into [\r\n]. *)
Lemma crlf_round_trip (t : str) :
  ~ In cr t -> py_replace [cr; nl] [nl] (write_text [cr; nl] t) = t.
Proof.
  unfold write_text. induction t as [|x t IH]; intro H; [reflexivity|].
  assert (Ht : ~ In cr t) by (intro; apply H; now right).
  assert (Hx : x <> cr) by (intro; apply H; now left).
  destruct (Ascii.eqb_spec x nl) as [-> | N].
  - rewrite single_hit. cbn [app].
    rewrite replace_hit; [|discriminate | reflexivity].
    cbn [app length skipn]. now rewrite (IH Ht).
  - rewrite single_miss by exact N.
    rewrite replace_miss.
    + now rewrite (IH Ht).
    + cbn [starts_with]. destruct (Ascii.eqb cr x) eqn:E; [|reflexivity].
      apply Ascii.eqb_eq in E. congruence.
Qed.

Lemma round_trip (linesep t : str) :
  linesep = [nl] \/ linesep = [cr; nl] ->
  ~ In cr t -> read_text (write_text linesep t) = t.
Proof.
  intros [-> | ->] H.
  - rewrite write_text_posix. now apply read_text_plain.
  - unfold read_text. rewrite (crlf_round_trip t H).
    apply replace_absent.
    destruct (contains [cr] t) eqn:E; [|reflexivity].
    apply contains_char in E. contradiction.
Qed.

Lemma string_line_chars (x : ascii) (k v : str) :
  x = cr -> ~ In x k -> ~ In x v -> ~ In x (Security.string_line k v).
Proof.
  intros -> Hk Hv. unfold Security.string_line, Security.open_lit. intro H.
  repeat (apply in_app_or in H as [H | H];
          [try contradiction;
           cbv in H; repeat (destruct H as [H | H]; [discriminate H|]); exact H|]).
  cbv in H; repeat (destruct H as [H | H]; [discriminate H|]); exact H.
Qed.

Lemma new_strings_chars (c : str) (tr : dict str) (l : str) :
  (forall k v, In (k, v) tr -> ~ In cr k /\ ~ In cr v) ->
  In l (Security.new_strings c tr) -> ~ In cr l.
Proof.
  intros H Hl. unfold Security.new_strings in Hl.
  apply in_map_iff in Hl as ([k v] & <- & Hin).
  apply filter_In in Hin as [Hin _]. destruct (H k v Hin) as [Hk Hv].
  now apply string_line_chars.
Qed.

Lemma wifi_new_strings_chars (b u h : str) :
  ~ In cr b -> ~ In cr u -> ~ In cr h -> ~ In cr (Wifi.new_strings b u h).
Proof.
  intros Hb Hu Hh. unfold Wifi.new_strings, open_tag. intro H.
  repeat (apply in_app_or in H as [H | H];
          [try contradiction;
           cbv in H; repeat (destruct H as [H | H]; [discriminate H|]); exact H|]).
  cbv in H; repeat (destruct H as [H | H]; [discriminate H|]); exact H.
Qed.

End TextMode.

(** X13. The text scripts open their files in text mode. The text they
    write is read back unchanged by the next run, under the line separator
    of POSIX and under that of Windows, when the values of the table hold
    no carriage return: the text read holds none, and neither do the
    literals of the scripts. *)
Theorem next_run_reads_what_was_written :
  forall (linesep : str),
    linesep = [nl] \/ linesep = [cr; nl] ->
    (forall (bytes : str) (tr : dict str),
        (forall k v, In (k, v) tr -> ~ In cr k /\ ~ In cr v) ->
        let c := read_text bytes in
        let c' := py_replace Security.closing
                    (Security.translation_block (Security.new_strings c tr)
                       ++ Security.closing) c in
        read_text (write_text linesep c') = c')
    /\ (forall (bytes b u h : str) (n : Z),
           ~ In cr b -> ~ In cr u -> ~ In cr h ->
           let c := read_text bytes in
           let c' := slice_to c n ++ Wifi.new_strings b u h ++ slice_from c n in
           read_text (write_text linesep c') = c').
Proof.
  intros linesep L. split.
  - intros bytes tr H c c'. apply (TextMode.round_trip linesep c' L).
    apply replace_chars; [|apply TextMode.read_text_no_cr].
    intro Hin. apply in_app_or in Hin as [Hin | Hin].
    + unfold Security.translation_block in Hin.
      apply in_app_or in Hin as [Hin | Hin].
      * revert Hin. apply join_chars.
        -- intros [E | []]. discriminate E.
        -- intros l Hl. apply (TextMode.new_strings_chars c tr l H Hl).
      * destruct Hin as [E | []]. discriminate E.
    + cbv in Hin. repeat (destruct Hin as [Hin | Hin]; [discriminate Hin|]). exact Hin.
  - intros bytes b u h n Hb Hu Hh c c'. apply (TextMode.round_trip linesep c' L).
    pose proof (TextMode.read_text_no_cr bytes) as N. fold c in N.
    intro Hin. apply in_app_or in Hin as [Hin | Hin].
    + apply N. unfold slice_to in Hin. apply (in_firstn _ _ _ Hin).
    + apply in_app_or in Hin as [Hin | Hin].
      * now apply (TextMode.wifi_new_strings_chars b u h Hb Hu Hh).
      * apply N. unfold slice_from in Hin. apply (in_skipn _ _ _ Hin).
Qed.

Module WifiSlip.
Import Wifi.



End WifiSlip.



(** The file with two closing tags, written under the line separator of Windows. *)
Lemma next_run_reads_what_was_written_witness :
  read_text (write_text [cr; nl] two_closings_out) = two_closings_out.
Proof.
  refine (proj1 (next_run_reads_what_was_written [cr; nl] (or_intror eq_refl))
            (py_join Security.closing two_closings) kv _).
  intros k v [[= <- <-] | []]. split; intros [H | []]; discriminate H.
Defined.

Lemma dict_get_In {V} (d : dict V) (k : str) (v : V) :
  dict_get d k = Some v -> In v (map snd d).
Proof.
  induction d as [|[k' v'] d IH]; [discriminate|].
  cbn [dict_get map snd]. destruct (str_eqb k' k).
  - intros [= ->]. now left.
  - intro H. right. now apply IH.
Qed.

Module Folders.

Lemma twofa_default_folder (lang : str) :
  TwoFA.folder_name lang = lit "values" <-> lang = lit "en".
Proof.
  unfold TwoFA.folder_name. destruct (str_eqb lang (lit "en")) eqn:E.
  - apply str_eqb_eq in E. now split.
  - apply str_eqb_neq in E. split; [|contradiction].
    intro H. change (lit "values" ++ "-"%char :: lang = lit "values" ++ []) in H.
    apply app_inv_head in H. discriminate H.
Qed.

Lemma twofa_never_values_en (lang : str) : TwoFA.folder_name lang <> lit "values-en".
Proof.
  unfold TwoFA.folder_name. destruct (str_eqb lang (lit "en")) eqn:E.
  - discriminate.
  - apply str_eqb_neq in E. intro H.
    change (lit "values-" ++ lang = lit "values-" ++ lit "en") in H.
    apply app_inv_head in H. contradiction.
Qed.

Lemma security_never_values (lang : str) :
  dict_get Security.LANG_FOLDERS lang <> Some (lit "values").
Proof.
  intro H. apply dict_get_In in H. cbn [Security.LANG_FOLDERS map snd In] in H.
  repeat (destruct H as [H | H]; [discriminate H|]). exact H.
Qed.

End Folders.

(** X15. The scripts do not agree on the folder of a locale. The 2FA
    script sends [en], and only [en], to the default folder [values] and
    names the folder [values-en] for no code; the folder map of the WiFi
    script sends [de] to [values] and [en] to [values-en]; the folder map
    of the security script sends [en] to [values-en] and no code to
    [values]. *)
Theorem default_folder_differs_between_scripts :
  (forall lang, TwoFA.folder_name lang = lit "values" <-> lang = lit "en")
  /\ (forall lang, TwoFA.folder_name lang <> lit "values-en")
  /\ dict_get Wifi.lang_folders (lit "de") = Some (lit "values")
  /\ dict_get Wifi.lang_folders (lit "en") = Some (lit "values-en")
  /\ dict_get Security.LANG_FOLDERS (lit "en") = Some (lit "values-en")
  /\ (forall lang, dict_get Security.LANG_FOLDERS lang <> Some (lit "values")).
Proof.
  split; [exact Folders.twofa_default_folder|].
  split; [exact Folders.twofa_never_values_en|].
  split; [reflexivity|]. split; [reflexivity|]. split; [reflexivity|].
  exact Folders.security_never_values.
Qed.

(** X16. For a plain key (not empty, no double quote, no angle bracket)
    the key is among the existing keys of the security script exactly when
    the opening tag of the key stands in the file in the literal form. *)
Theorem security_finds_plain_keys_exactly :
  forall (c k : str),
    key_ok k = true ->
    (In k (Security.existing_keys c) <-> contains (open_tag k) c = true).
Proof.
  intros c k Hk. split.
  - apply SecurityFacts.findall_sound.
  - now apply SecurityFacts.findall_complete.
Qed.

(** The key of the one-line file. *)
Lemma security_finds_plain_keys_exactly_witness :
  In (lit "a") (Security.existing_keys one_line)
  <-> contains (open_tag (lit "a")) one_line = true.
Proof.
  exact (security_finds_plain_keys_exactly one_line (lit "a") eq_refl).
Defined.

Module SecondPass.

(** ** The security script *)






(** ** The WiFi script *)

Lemma wifi_settled_step (tr : dict (dict str)) (lang folder lang2 folder2 : str)
      (d1 d2 : fs) (o1 o2 : outcome) :
  Wifi.process tr lang folder d1 = Ret (o1, d1) ->
  (forall n, o1 <> Added n) ->
  Wifi.process tr lang2 folder2 d1 = Ret (o2, d2) ->
  exists o, Wifi.process tr lang folder d2 = Ret (o, d2) /\ forall n, o <> Added n.
Proof.
  intros H1 N1 H2.
  destruct (WifiRun.wifi_run_cases _ _ _ _ _ _ H2)
    as [[-> _] | (f2 & t2 & b & u & h & Df2 & R2 & W2 & B2 & M2 & S2 & Gb & Gu & Gh & _ & ->)].
  { exists o1. now split. }
  unfold Wifi.process in H1 |- *.
  destruct (str_eqb (Wifi.strings_file folder) (Wifi.strings_file folder2)) eqn:E.
  - apply str_eqb_eq in E. rewrite E in H1 |- *.
    rewrite (fs_write_same _ _ _ _ Df2). cbn [readable content].
    rewrite R2. cbn [negb].
    rewrite contains_app_r by (apply contains_app_l, WifiRun.new_strings_has_banner).
    exists NoOp. split; [reflexivity | discriminate].
  - apply str_eqb_neq in E. rewrite (fs_write_other _ _ _ _ E).
    destruct (d1 (Wifi.strings_file folder)) as [f|].
    + destruct (negb (readable f)); [discriminate H1|].
      destruct (contains Wifi.banner_key (content f)).
      * exists NoOp. split; [reflexivity | discriminate].
      * destruct (negb (contains Wifi.marker (content f))).
        -- exists AnchorNotFound. split; [reflexivity | discriminate].
        -- destruct (Wifi.select_trans tr lang) as [t|]; [|discriminate H1].
           destruct (dict_get t (lit "banner")); [|discriminate H1].
           destruct (dict_get t (lit "button")); [|discriminate H1].
           destruct (dict_get t (lit "hint")); [|discriminate H1].
           destruct (writable f); [|discriminate H1].
           injection H1 as <- _. now destruct (N1 _ eq_refl).
    + exists NotFound. split; [reflexivity | discriminate].
Qed.

Lemma wifi_settled_loop (tr : dict (dict str)) (lang folder : str) (lf : dict str)
      (d d' : fs) (o : outcome) (os : list (str * outcome)) (fin : bool) :
  Wifi.process tr lang folder d = Ret (o, d) ->
  (forall n, o <> Added n) ->
  Wifi.add_translations tr lf d = (os, d', fin) ->
  exists o', Wifi.process tr lang folder d' = Ret (o', d') /\ forall n, o' <> Added n.
Proof.
  revert d o os fin.
  induction lf as [|[l fo] lf IH]; intros d o os fin H N; cbn [Wifi.add_translations].
  - intros [= <- <- <-]. now exists o.
  - destruct (Wifi.process tr l fo d) as [[o1 d1]|] eqn:A.
    2: { intros [= <- <- <-]. now exists o. }
    destruct (Wifi.add_translations tr lf d1) as [[os1 d2] fin1] eqn:M.
    intros [= <- <- <-].
    destruct (wifi_settled_step _ _ _ _ _ _ _ _ _ H N A) as (o2 & H2 & N2).
    now apply (IH d1 o2 os1 fin1).
Qed.

Lemma wifi_pass_settles (tr : dict (dict str)) (lf : dict str) (d d' : fs)
      (os : list (str * outcome)) :
  Wifi.add_translations tr lf d = (os, d', true) ->
  forall lang folder,
    In (lang, folder) lf ->
    exists o, Wifi.process tr lang folder d' = Ret (o, d') /\ forall n, o <> Added n.
Proof.
  revert d os.
  induction lf as [|[l fo] lf IH]; intros d os M lang folder Hin; [contradiction|].
  cbn [Wifi.add_translations] in M.
  destruct (Wifi.process tr l fo d) as [[o1 d1]|] eqn:A; [|discriminate M].
  destruct (Wifi.add_translations tr lf d1) as [[os1 d2] fin1] eqn:M1.
  injection M as <- <- ->.
  destruct Hin as [[= <- <-] | Hin].
  - destruct (WifiRun.wifi_second_run _ _ _ _ _ _ A) as (o2 & A2 & Ho).
    apply (wifi_settled_loop tr l fo lf d1 _ o2 os1 _ A2
             (not_added_of_match _ _ Ho) M1).
  - now apply (IH d1 os1 M1 lang folder).
Qed.

Lemma wifi_settled_pass (tr : dict (dict str)) (lf : dict str) (d : fs) :
  (forall lang folder,
      In (lang, folder) lf ->
      exists o, Wifi.process tr lang folder d = Ret (o, d) /\ forall n, o <> Added n) ->
  exists os, Wifi.add_translations tr lf d = (os, d, true)
             /\ forall lang o n, In (lang, o) os -> o <> Added n.
Proof.
  induction lf as [|[l fo] lf IH]; intro H.
  - exists []. split; [reflexivity | intros ? ? ? []].
  - cbn [Wifi.add_translations].
    destruct (IH (fun lang folder Hin => H lang folder (or_intror Hin))) as (os & M & N).
    destruct (H l fo (or_introl eq_refl)) as (o & A & No).
    rewrite A, M. exists ((l, o) :: os). split; [reflexivity|].
    intros lang o' n [[= <- <-] | Hin]; [apply No | eapply N, Hin].
Qed.

End SecondPass.




(** X18. A second pass of the loop of the WiFi script, on the file system
    a first pass that ran to its end left, writes nothing: it runs to its
    end, no outcome is an insertion and the file system is left as it
    is. *)
Theorem wifi_second_pass_writes_nothing :
  forall (tr : dict (dict str)) (lf : dict str) (d d' : fs)
         (os : list (str * outcome)),
    Wifi.add_translations tr lf d = (os, d', true) ->
    exists os2,
      Wifi.add_translations tr lf d' = (os2, d', true)
      /\ forall lang o n, In (lang, o) os2 -> o <> Added n.
Proof.
  intros tr lf d d' os M.
  apply SecondPass.wifi_settled_pass.
  intros lang folder Hin.
  exact (SecondPass.wifi_pass_settles tr lf d d' os M lang folder Hin).
Qed.

Lemma wifi_fr_en_pass :
  Wifi.add_translations wifi_table wifi_fr_en_folders wifi_fr_en_files
  = ([(lit "fr", Added 3); (lit "en", Added 3); (lit "it", NotFound)],
     wifi_fr_en_after, true).
Proof. vm_compute. reflexivity. Qed.

(** Two locale files that get the block in the first pass, and a folder without file. *)
Lemma wifi_second_pass_writes_nothing_witness :
  exists os2,
    Wifi.add_translations wifi_table wifi_fr_en_folders wifi_fr_en_after
    = (os2, wifi_fr_en_after, true)
    /\ forall lang o n, In (lang, o) os2 -> o <> Added n.
Proof.
  exact (wifi_second_pass_writes_nothing wifi_table wifi_fr_en_folders wifi_fr_en_files
           wifi_fr_en_after
           [(lit "fr", Added 3); (lit "en", Added 3); (lit "it", NotFound)]
           wifi_fr_en_pass).
Defined.

Module TwoFASecondPass.
Import TwoFA.

Section Run.
Variable ET_parse : str -> option Element.
Variable ET_write : Element -> str.

Lemma twofa_settled_pass (table : dict (dict str)) (d : fs) :
  (forall lang tr,
      In (lang, tr) table ->
      returns_true
        (fst (add_translations_to_file ET_parse ET_write (file_path lang) tr d))
      = false) ->
  snd (main_loop ET_parse ET_write table d) = d
  /\ total_updated (fst (main_loop ET_parse ET_write table d)) = 0.
Proof.
  induction table as [|[l t] table IH]; intro H; [now split|].
  cbn [main_loop].
  destruct (IH (fun lang tr Hin => H lang tr (or_intror Hin))) as [I1 I2].
  destruct (exists_file d (file_path l)).
  - pose proof (H l t (or_introl eq_refl)) as N.
    destruct (add_translations_to_file ET_parse ET_write (file_path l) t d)
      as [o d1] eqn:A.
    cbn [fst] in N.
    rewrite (TwoFABatch.twofa_unchanged_unless_added _ _ _ _ _ _ _ A N).
    destruct (main_loop ET_parse ET_write table d) as [os d2].
    cbn [fst snd] in *. split; [exact I1|].
    unfold total_updated in *. cbn [filter snd]. now rewrite N.
  - destruct (main_loop ET_parse ET_write table d) as [os d2].
    cbn [fst snd] in *. split; [exact I1|].
    unfold total_updated in *. cbn [filter snd returns_true]. exact I2.
Qed.

Lemma twofa_pass_settles (table : dict (dict str)) (d : fs) :
  NoDup (map file_path (keys table)) ->
  (forall lang tr f root root' t,
      In (lang, tr) table ->
      d (file_path lang) = Some f -> ET_parse (content f) = Some root ->
      merged tr root = Some root' ->
      ET_parse (ET_write root') = Some t ->
      existing_keys t = existing_keys root') ->
  forall lang tr,
    In (lang, tr) table ->
    returns_true
      (fst (add_translations_to_file ET_parse ET_write (file_path lang) tr
              (snd (main_loop ET_parse ET_write table d))))
    = false.
Proof.
  intros ND RT lang tr Hin.
  destruct (TwoFAPaths.twofa_loop_local ET_parse ET_write table d d ND
              (fun _ _ => eq_refl)) as [_ L].
  specialize (L lang tr Hin).
  destruct (add_translations_to_file ET_parse ET_write (file_path lang) tr d)
    as [o1 d1] eqn:A.
  cbn [snd] in L.
  destruct (TwoFAFacts.twofa_second_run ET_parse ET_write (file_path lang) tr d d1 o1
              (fun f root root' t => RT lang tr f root root' t Hin) A)
    as (o2 & A2 & Ho).
  destruct (TwoFAPaths.twofa_local ET_parse ET_write (file_path lang) tr _ d1 L)
    as [F _].
  rewrite F, A2. cbn [fst].
  destruct o1; try (subst o2; reflexivity).
  destruct Ho as [-> | ->]; reflexivity.
Qed.

End Run.
End TwoFASecondPass.

(** X19. A second run of [main] of the 2FA script, on the file system
    the first run left, writes nothing and reports no updated file, when
    the locales have distinct files and parsing a file that the first run
    wrote gives back the keys of the tree written. *)
Theorem twofa_second_pass_writes_nothing :
  forall (ET_parse : str -> option TwoFA.Element) (ET_write : TwoFA.Element -> str)
         (table : dict (dict str)) (d : fs),
    NoDup (map TwoFA.file_path (keys table)) ->
    (forall lang tr f root root' t,
        In (lang, tr) table ->
        d (TwoFA.file_path lang) = Some f -> ET_parse (content f) = Some root ->
        TwoFA.merged tr root = Some root' ->
        ET_parse (ET_write root') = Some t ->
        TwoFA.existing_keys t = TwoFA.existing_keys root') ->
    let d' := snd (TwoFA.main_loop ET_parse ET_write table d) in
    snd (TwoFA.main_loop ET_parse ET_write table d') = d'
    /\ TwoFA.total_updated (fst (TwoFA.main_loop ET_parse ET_write table d')) = 0.
Proof.
  intros P W table d ND RT d'.
  apply TwoFASecondPass.twofa_settled_pass.
  intros lang tr Hin.
  exact (TwoFASecondPass.twofa_pass_settles P W table d ND RT lang tr Hin).
Qed.

(** Three locales: one file gets an entry, one has the key, one is missing. *)
Lemma twofa_second_pass_writes_nothing_witness :
  snd (TwoFA.main_loop Plain.parse Plain.write three_locales
         (snd (TwoFA.main_loop Plain.parse Plain.write three_locales fr_es_2fa)))
  = snd (TwoFA.main_loop Plain.parse Plain.write three_locales fr_es_2fa)
  /\ TwoFA.total_updated
       (fst (TwoFA.main_loop Plain.parse Plain.write three_locales
               (snd (TwoFA.main_loop Plain.parse Plain.write three_locales fr_es_2fa))))
     = 0.
Proof.
  apply (twofa_second_pass_writes_nothing Plain.parse Plain.write three_locales
           fr_es_2fa three_locales_paths).
  intros lang tr f root root' t [[= <- <-] | [[= <- <-] | [[= <- <-] | []]]] Df P M P2.
  - vm_compute in Df. injection Df as <-.
    vm_compute in P. injection P as <-.
    vm_compute in M. injection M as <-.
    vm_compute in P2. injection P2 as <-.
    vm_compute. reflexivity.
  - vm_compute in Df. injection Df as <-.
    vm_compute in P. injection P as <-.
    vm_compute in M. discriminate M.
  - vm_compute in Df. discriminate Df.
Defined.
